(** * The checkpointed agent workflow of the tutor API

    A shallow embedding of

      - [src/services/langchain/sqlite-memory.service.js]
        (class [SQLiteAgentMemory]: [saveCheckpoint], [loadCheckpoint],
        [saveMessage], [getMessages], [clearCache]),
      - [src/services/langchain/agent-flow.service.js]
        (class [AgentFlowService]: the four workflow nodes, [execute],
        [executeAgentFlow], [_formatMessageHistory]),
      - [prompt-template.service.js] ([createSubjectPromptTemplate]),

    and the properties of the specification that concern them.

    Conventions.  An [async] function is a computation in the monad [M]:
    it reads and updates a [World] (the SQLite tables, the in-process
    [stateCache], the system clock, the random source and the faults of the
    database driver) and either returns or throws.  One turn runs
    sequentially, so every [await] is a plain sequencing; interleavings of
    concurrent turns are outside this development.  Logging has no effect
    on any value and is left out. *)

From Stdlib Require Import ZArith List String Ascii Lia Bool Sorted.
From Stdlib Require Import DecimalString DecimalZ DecimalPos.
From stdpp Require Import gmap strings list.

Open Scope string_scope.
Open Scope Z_scope.

(* ===================================================================== *)
(** ** JSON values and the codec of the runtime *)
(* ===================================================================== *)

(** [JSON.stringify] and [JSON.parse] belong to the runtime.  The store
    writes a state as text and reads the text back, so the model has
    both: the writer produces the compact text of the runtime, and the
    reader accepts the texts the writer produces (no white space, no
    fractions or exponents, control characters only escaped). *)

Module JSON.

#[local] Set Warnings "-register-all".

(** The values [JSON.stringify] can write and [JSON.parse] can read.
    Numbers are the integers (the states of the workflow hold none); an
    object keeps its keys in insertion order, each key once in the
    objects the workflow builds. *)
Inductive json : Type :=
| JNull
| JBool (b : bool)
| JNum (n : Z)
| JStr (s : string)
| JArr (l : list json)
| JObj (o : list (string * json)).

(** JavaScript truthiness of a JSON value: [null], [false], [0] and the
    empty string are falsy; arrays and objects are always truthy. *)
Definition truthy (j : json) : bool :=
  match j with
  | JNull => false
  | JBool b => b
  | JNum n => negb (n =? 0)
  | JStr s => negb (String.eqb s "")
  | JArr _ | JObj _ => true
  end.

(** The double quote. *)
Definition dquote : ascii := Ascii false true false false false true false false.

(** *** Writing *)

Definition hex_digit (n : nat) : ascii :=
  match n with
  | 0 => "0" | 1 => "1" | 2 => "2" | 3 => "3" | 4 => "4" | 5 => "5"
  | 6 => "6" | 7 => "7" | 8 => "8" | 9 => "9" | 10 => "a" | 11 => "b"
  | 12 => "c" | 13 => "d" | 14 => "e" | _ => "f"
  end%char%nat.

(** One character of a string literal, as [JSON.stringify] quotes it:
    the quote and the backslash are escaped, the control characters are
    written with their short escape or as [\u00XX]. *)
Definition escape_char (c : ascii) : string :=
  let n := nat_of_ascii c in
  if Ascii.eqb c dquote then String "\" (String dquote "")
  else if Ascii.eqb c "\" then String "\" (String "\" "")
  else if (n =? 8)%nat then String "\" (String "b" "")
  else if (n =? 9)%nat then String "\" (String "t" "")
  else if (n =? 10)%nat then String "\" (String "n" "")
  else if (n =? 12)%nat then String "\" (String "f" "")
  else if (n =? 13)%nat then String "\" (String "r" "")
  else if (n <? 32)%nat then
    String "\" (String "u" (String "0" (String "0"
      (String (hex_digit (n / 16)) (String (hex_digit (n mod 16)) "")))))
  else String c "".

Fixpoint escape (s : string) : string :=
  match s with
  | EmptyString => ""
  | String c r => escape_char c +:+ escape r
  end.

Definition quote (s : string) : string :=
  String dquote (escape s +:+ String dquote "").

(** Integers in decimal, with a minus sign when negative. *)
Definition number_text (n : Z) : string :=
  match Z.to_int n with
  | Decimal.Pos u => NilEmpty.string_of_uint u
  | Decimal.Neg u => String "-" (NilEmpty.string_of_uint u)
  end.

(** The elements of an array and the members of an object, separated
    by commas and closed by their bracket. *)
Section Joined.
Context (write : json -> string).

Fixpoint elems_text (l : list json) : string :=
  match l with
  | [] => "]"
  | [x] => write x +:+ "]"
  | x :: l' => write x +:+ String "," (elems_text l')
  end.

Fixpoint members_text (o : list (string * json)) : string :=
  match o with
  | [] => "}"
  | [(k, v)] => quote k +:+ String ":" (write v +:+ "}")
  | (k, v) :: o' =>
      quote k +:+ String ":" (write v +:+ String "," (members_text o'))
  end.
End Joined.

(** [JSON.stringify], in the compact form the runtime produces when no
    indentation is asked for. *)
Fixpoint stringify (j : json) : string :=
  match j with
  | JNull => "null"
  | JBool true => "true"
  | JBool false => "false"
  | JNum n => number_text n
  | JStr s => quote s
  | JArr l => String "[" (elems_text stringify l)
  | JObj o => String "{" (members_text stringify o)
  end.

(** *** Reading *)

Definition hex_value (c : ascii) : option nat :=
  let n := nat_of_ascii c in
  if ((48 <=? n) && (n <=? 57))%nat then Some (n - 48)%nat
  else if ((97 <=? n) && (n <=? 102))%nat then Some (n - 87)%nat
  else if ((65 <=? n) && (n <=? 70))%nat then Some (n - 55)%nat
  else None.

(** The body of a string literal, after its opening quote, up to and
    including the closing quote. *)
Fixpoint read_string (s : string) : option (string * string) :=
  match s with
  | EmptyString => None
  | String c r =>
      if Ascii.eqb c dquote then Some ("", r)
      else if Ascii.eqb c "\" then
        match r with
        | String e r1 =>
            let continue (d : ascii) (rest : string) :=
              match read_string rest with
              | Some (t, rest') => Some (String d t, rest')
              | None => None
              end in
            if Ascii.eqb e dquote then continue dquote r1
            else if Ascii.eqb e "\" then continue "\"%char r1
            else if Ascii.eqb e "/" then continue "/"%char r1
            else if Ascii.eqb e "b" then continue (ascii_of_nat 8) r1
            else if Ascii.eqb e "t" then continue (ascii_of_nat 9) r1
            else if Ascii.eqb e "n" then continue (ascii_of_nat 10) r1
            else if Ascii.eqb e "f" then continue (ascii_of_nat 12) r1
            else if Ascii.eqb e "r" then continue (ascii_of_nat 13) r1
            else if Ascii.eqb e "u" then
              match r1 with
              | String "0" (String "0" (String h (String l r2))) =>
                  match hex_value h, hex_value l with
                  | Some a, Some b => continue (ascii_of_nat (16 * a + b)) r2
                  | _, _ => None
                  end
              | _ => None
              end
            else None
        | EmptyString => None
        end
      else
        match read_string r with
        | Some (t, rest') => Some (String c t, rest')
        | None => None
        end
  end.

Definition digit_of (c : ascii) : option (Decimal.uint -> Decimal.uint) :=
  match c with
  | "0" => Some Decimal.D0 | "1" => Some Decimal.D1 | "2" => Some Decimal.D2
  | "3" => Some Decimal.D3 | "4" => Some Decimal.D4 | "5" => Some Decimal.D5
  | "6" => Some Decimal.D6 | "7" => Some Decimal.D7 | "8" => Some Decimal.D8
  | "9" => Some Decimal.D9 | _ => None
  end%char.

(** The longest run of decimal digits at the head of the text. *)
Fixpoint read_digits (s : string) : Decimal.uint * string :=
  match s with
  | EmptyString => (Decimal.Nil, "")
  | String c r =>
      match digit_of c with
      | Some d => let (u, rest) := read_digits r in (d u, rest)
      | None => (Decimal.Nil, s)
      end
  end.

Definition nonempty_digits (r : Decimal.uint * string)
  : option (Decimal.uint * string) :=
  match r with
  | (Decimal.Nil, _) => None
  | _ => Some r
  end.

Definition read_number (s : string) : option (Z * string) :=
  match s with
  | String c r =>
      if Ascii.eqb c "-" then
        match nonempty_digits (read_digits r) with
        | Some (u, rest) => Some (Z.of_int (Decimal.Neg u), rest)
        | None => None
        end
      else
        match nonempty_digits (read_digits s) with
        | Some (u, rest) => Some (Z.of_int (Decimal.Pos u), rest)
        | None => None
        end
  | EmptyString => None
  end.

(** The rest of the text after [word], when the text starts with it. *)
Fixpoint expect (word : string) (s : string) : option string :=
  match word, s with
  | EmptyString, _ => Some s
  | String c word', String d s' =>
      if Ascii.eqb c d then expect word' s' else None
  | String _ _, EmptyString => None
  end.

Definition starts_with (c : ascii) (s : string) : bool :=
  match s with
  | String d _ => Ascii.eqb d c
  | EmptyString => false
  end.

Definition after_head (s : string) : string :=
  match s with
  | String _ r => r
  | EmptyString => ""
  end.

(** A recursive-descent reader; [fuel] bounds the nesting and the number
    of elements, and [parse] below supplies more than any text needs. *)
Fixpoint read_value (fuel : nat) (s : string) : option (json * string) :=
  match fuel with
  | O => None
  | S f =>
      if starts_with "n" s then option_map (pair JNull) (expect "null" s)
      else if starts_with "t" s then
        option_map (pair (JBool true)) (expect "true" s)
      else if starts_with "f" s then
        option_map (pair (JBool false)) (expect "false" s)
      else if starts_with dquote s then
        match read_string (after_head s) with
        | Some (t, rest) => Some (JStr t, rest)
        | None => None
        end
      else if starts_with "[" s then
        if starts_with "]" (after_head s) then Some (JArr [], after_head (after_head s))
        else
          match read_elems f (after_head s) with
          | Some (l, rest) => Some (JArr l, rest)
          | None => None
          end
      else if starts_with "{" s then
        if starts_with "}" (after_head s) then Some (JObj [], after_head (after_head s))
        else
          match read_members f (after_head s) with
          | Some (o, rest) => Some (JObj o, rest)
          | None => None
          end
      else
        match read_number s with
        | Some (n, rest) => Some (JNum n, rest)
        | None => None
        end
  end
with read_elems (fuel : nat) (s : string) : option (list json * string) :=
  match fuel with
  | O => None
  | S f =>
      match read_value f s with
      | Some (x, rest) =>
          if starts_with "]" rest then Some ([x], after_head rest)
          else if starts_with "," rest then
            match read_elems f (after_head rest) with
            | Some (l, rest') => Some (x :: l, rest')
            | None => None
            end
          else None
      | None => None
      end
  end
with read_members (fuel : nat) (s : string)
  : option (list (string * json) * string) :=
  match fuel with
  | O => None
  | S f =>
      if starts_with dquote s then
        match read_string (after_head s) with
        | Some (k, r) =>
            if starts_with ":" r then
              match read_value f (after_head r) with
              | Some (v, rest) =>
                  if starts_with "}" rest then Some ([(k, v)], after_head rest)
                  else if starts_with "," rest then
                    match read_members f (after_head rest) with
                    | Some (o, rest') => Some ((k, v) :: o, rest')
                    | None => None
                    end
                  else None
              | None => None
              end
            else None
        | None => None
        end
      else None
  end.

(** The fuel that reading a value back takes. *)
Fixpoint size (j : json) : nat :=
  match j with
  | JArr l => S (fold_right (fun x n => S (size x + n)) 0 l)
  | JObj o => S (fold_right (fun kv n => S (size (snd kv) + n)) 0 o)
  | _ => 1
  end%nat.

(** [JSON.parse]: [None] stands for the [SyntaxError] it throws. *)
Definition parse (text : string) : option json :=
  match read_value (S (String.length text)) text with
  | Some (j, EmptyString) => Some j
  | _ => None
  end.

(** *** Notions for the round trip *)

Definition no_digit (s : string) : Prop :=
  match s with
  | String c _ => digit_of c = None
  | EmptyString => True
  end.

Definition special_head (s : string) : bool :=
  starts_with "n" s || starts_with "t" s || starts_with "f" s
  || starts_with dquote s || starts_with "[" s || starts_with "{" s.

Definition is_digit (c : ascii) : bool :=
  match digit_of c with Some _ => true | None => false end.

Definition elems_size (l : list json) : nat :=
  fold_right (fun x n => S (size x + n)) 0%nat l.
Definition members_size (o : list (string * json)) : nat :=
  fold_right (fun kv n => S (size (snd kv) + n)) 0%nat o.

Definition reads_back (j : json) : Prop :=
  forall fuel rest,
    (size j <= fuel)%nat -> no_digit rest ->
    read_value fuel (stringify j +:+ rest) = Some (j, rest).

End JSON.

Import JSON.

(* ===================================================================== *)
(** ** The world of one server process *)
(* ===================================================================== *)

(** A thrown [Error]: the code only ever reads its [message]. *)
Record exn : Type := Error { message : string }.

Inductive outcome (A : Type) : Type :=
| Ok (a : A)
| Throw (e : exn).
Arguments Ok {A} a.
Arguments Throw {A} e.

(** A row of [agent_memories].  Rows are kept in [rowid] order: the
    [AUTOINCREMENT] key only grows, so a new row goes to the end.
    [created_at] is [CURRENT_TIMESTAMP], which has a resolution of one
    second; it is kept as the number of seconds since the epoch, which
    orders like its text. *)
Record MemoryRow : Type := mkMemoryRow {
  mem_session_id : string;
  mem_checkpoint_id : string;
  state_data : string;
  created_at : Z
}.

(** A row of [agent_messages]. *)
Record MessageRow : Type := mkMessageRow {
  msg_session_id : string;
  message_id : string;
  msg_role : string;
  msg_content : string;
  msg_timestamp : Z
}.

(** A row of [agent_schema]. *)
Record SchemaRow : Type := mkSchemaRow {
  schema_key : string;
  default_value : string;
  schema_type : string
}.

Record World : Type := mkWorld {
  (** [this.db] is set. *)
  db_open : bool;
  (** The three tables; [None] while a table has not been created. *)
  agent_memories : option (list MemoryRow);
  agent_messages : option (list MessageRow);
  agent_schema : option (list SchemaRow);
  (** [this.stateCache]. *)
  stateCache : gmap string json;
  (** What the system clock answers to its next readings, in
      milliseconds; both [Date.now()] and SQLite's [CURRENT_TIMESTAMP]
      read it. *)
  clock : list Z;
  (** What [Math.random().toString(36)] answers to its next calls. *)
  random : list string;
  (** What the database driver does with its next statements: [Some msg]
      rejects the statement with that message. *)
  faults : list (option string)
}.

Definition set_db_open (b : bool) (w : World) : World :=
  mkWorld b (agent_memories w) (agent_messages w) (agent_schema w)
          (stateCache w) (clock w) (random w) (faults w).
Definition set_agent_memories (t : option (list MemoryRow)) (w : World) : World :=
  mkWorld (db_open w) t (agent_messages w) (agent_schema w)
          (stateCache w) (clock w) (random w) (faults w).
Definition set_agent_messages (t : option (list MessageRow)) (w : World) : World :=
  mkWorld (db_open w) (agent_memories w) t (agent_schema w)
          (stateCache w) (clock w) (random w) (faults w).
Definition set_agent_schema (t : option (list SchemaRow)) (w : World) : World :=
  mkWorld (db_open w) (agent_memories w) (agent_messages w) t
          (stateCache w) (clock w) (random w) (faults w).
Definition set_stateCache (c : gmap string json) (w : World) : World :=
  mkWorld (db_open w) (agent_memories w) (agent_messages w) (agent_schema w)
          c (clock w) (random w) (faults w).
Definition set_clock (c : list Z) (w : World) : World :=
  mkWorld (db_open w) (agent_memories w) (agent_messages w) (agent_schema w)
          (stateCache w) c (random w) (faults w).
Definition set_random (r : list string) (w : World) : World :=
  mkWorld (db_open w) (agent_memories w) (agent_messages w) (agent_schema w)
          (stateCache w) (clock w) r (faults w).
Definition set_faults (f : list (option string)) (w : World) : World :=
  mkWorld (db_open w) (agent_memories w) (agent_messages w) (agent_schema w)
          (stateCache w) (clock w) (random w) f.

(** *** Computations that may throw *)

Definition M (A : Type) : Type := World -> outcome A * World.

Definition ret {A} (a : A) : M A := fun w => (Ok a, w).

Definition throw {A} (e : exn) : M A := fun w => (Throw e, w).

Definition bind {A B} (m : M A) (k : A -> M B) : M B :=
  fun w =>
    match m w with
    | (Ok a, w') => k a w'
    | (Throw e, w') => (Throw e, w')
    end.

(** [try { m } catch (e) { handler e }]. *)
Definition try_catch {A} (m : M A) (handler : exn -> M A) : M A :=
  fun w =>
    match m w with
    | (Ok a, w') => (Ok a, w')
    | (Throw e, w') => handler e w'
    end.

Notation "'let*' x ':=' m 'in' k" := (bind m (fun x => k))
  (at level 10, x name, m at level 100, k at level 200).
Notation "'do' m 'then' k" := (bind m (fun _ => k))
  (at level 10, m at level 100, k at level 200).

(** *** What a computation guarantees *)

(** [ensures m Q]: whenever [m] returns, its value satisfies [Q]. *)
Definition ensures {A} (m : M A) (Q : A -> World -> Prop) : Prop :=
  forall w a w', m w = (Ok a, w') -> Q a w'.

(** [returns m Q]: [m] never throws, and its value satisfies [Q]. *)
Definition returns {A} (m : M A) (Q : A -> Prop) : Prop :=
  forall w, exists a w', m w = (Ok a, w') /\ Q a.

(** [preserves P m]: [m] keeps [P], whether it returns or throws. *)
Definition preserves {A} (P : World -> Prop) (m : M A) : Prop :=
  forall w r w', P w -> m w = (r, w') -> P w'.

(** *** The clock and the random source *)

(** [Date.now()]; a clock without readings left answers 0. *)
Definition Date_now : M Z := fun w =>
  match clock w with
  | t :: rest => (Ok t, set_clock rest w)
  | [] => (Ok 0, w)
  end.

(** SQLite's [CURRENT_TIMESTAMP]: the clock, to the second. *)
Definition CURRENT_TIMESTAMP : M Z :=
  let* t := Date_now in ret (t / 1000).

(** [Math.random().toString(36)]: the text ["0"] for the number 0, and
    otherwise ["0."] followed by the digits of the fraction in base 36,
    as many as tell the number apart (["0.i"] for one half). *)
Definition Math_random_toString36 : M string := fun w =>
  match random w with
  | r :: rest => (Ok r, set_random rest w)
  | [] => (Ok "0", w)
  end.

(** The text of an integer in a template literal. *)
Definition decimal (n : Z) : string := number_text n.

(** The text of a possibly [undefined] string in a template literal. *)
Definition js_string (s : option string) : string :=
  match s with
  | Some s => s
  | None => "undefined"
  end.

(** [s.substring(from, to)] for [from <= to]. *)
Definition substring_js (from to : nat) (s : string) : string :=
  String.substring from (to - from) s.

(* ===================================================================== *)
(** ** The store: [sqlite-memory.service.js] *)
(* ===================================================================== *)

(** *** The SQL statements, as SQLite runs them *)

Module SQL.

(** The driver takes the next statement and may reject it. *)
Definition driver : M unit := fun w =>
  match faults w with
  | Some msg :: rest => (Throw (Error msg), set_faults rest w)
  | None :: rest => (Ok tt, set_faults rest w)
  | [] => (Ok tt, w)
  end.

Definition no_such_table (name : string) : exn :=
  Error ("SQLITE_ERROR: no such table: " +:+ name).

Definition not_null_failed (column : string) : exn :=
  Error ("SQLITE_CONSTRAINT: NOT NULL constraint failed: " +:+ column).

(** [CREATE TABLE IF NOT EXISTS agent_memories (...)], and the like. *)
Definition create_agent_memories : M unit :=
  do driver then fun w =>
    match agent_memories w with
    | Some _ => (Ok tt, w)
    | None => (Ok tt, set_agent_memories (Some []) w)
    end.

Definition create_agent_messages : M unit :=
  do driver then fun w =>
    match agent_messages w with
    | Some _ => (Ok tt, w)
    | None => (Ok tt, set_agent_messages (Some []) w)
    end.

Definition create_agent_schema : M unit :=
  do driver then fun w =>
    match agent_schema w with
    | Some _ => (Ok tt, w)
    | None => (Ok tt, set_agent_schema (Some []) w)
    end.

(** [INSERT OR IGNORE INTO agent_schema (key, default_value, type)
    VALUES (?, ?, ?)], under [UNIQUE(key)]. *)
Definition insert_or_ignore_schema (key value type : string) : M unit :=
  do driver then fun w =>
    match agent_schema w with
    | None => (Throw (no_such_table "agent_schema"), w)
    | Some rows =>
        if existsb (fun r => String.eqb (schema_key r) key) rows
        then (Ok tt, w)
        else (Ok tt, set_agent_schema
                       (Some (rows ++ [mkSchemaRow key value type])%list) w)
    end.

Definition same_checkpoint (sid cid : string) (r : MemoryRow) : bool :=
  String.eqb (mem_session_id r) sid && String.eqb (mem_checkpoint_id r) cid.

Definition same_message (sid mid : string) (r : MessageRow) : bool :=
  String.eqb (msg_session_id r) sid && String.eqb (message_id r) mid.

(** [INSERT OR REPLACE INTO agent_memories (session_id, checkpoint_id,
    state_data) VALUES (?, ?, ?)], under [UNIQUE(session_id,
    checkpoint_id)]: the row in conflict is deleted and the new row gets a
    fresh [id] and the current time.  An [undefined] parameter is bound
    as NULL, which [session_id TEXT NOT NULL] refuses. *)
Definition insert_or_replace_memory
    (sid : option string) (cid data : string) : M unit :=
  do driver then fun w =>
    match agent_memories w, sid with
    | None, _ => (Throw (no_such_table "agent_memories"), w)
    | Some _, None => (Throw (not_null_failed "agent_memories.session_id"), w)
    | Some rows, Some sid =>
        match CURRENT_TIMESTAMP w with
        | (Ok now, w') =>
            (Ok tt,
             set_agent_memories
               (Some (List.filter (fun r => negb (same_checkpoint sid cid r)) rows
                      ++ [mkMemoryRow sid cid data now])%list) w')
        | (Throw e, w') => (Throw e, w')
        end
    end.

(** [INSERT OR REPLACE INTO agent_messages (session_id, message_id, role,
    content) VALUES (?, ?, ?, ?)], under [UNIQUE(session_id, message_id)];
    [session_id] and [content] are [NOT NULL]. *)
Definition insert_or_replace_message
    (sid : option string) (mid role : string) (content : option string)
  : M unit :=
  do driver then fun w =>
    match agent_messages w, sid, content with
    | None, _, _ => (Throw (no_such_table "agent_messages"), w)
    | Some _, None, _ =>
        (Throw (not_null_failed "agent_messages.session_id"), w)
    | Some _, Some _, None =>
        (Throw (not_null_failed "agent_messages.content"), w)
    | Some rows, Some sid, Some content =>
        match CURRENT_TIMESTAMP w with
        | (Ok now, w') =>
            (Ok tt,
             set_agent_messages
               (Some (List.filter (fun r => negb (same_message sid mid r)) rows
                      ++ [mkMessageRow sid mid role content now])%list) w')
        | (Throw e, w') => (Throw e, w')
        end
    end.

(** [ORDER BY]: a stable sort, so that rows the order does not tell
    apart stay in [rowid] order (SQL leaves their order open). *)
Section OrderBy.
Context {A : Type} (before : A -> A -> bool).

Fixpoint place (x : A) (l : list A) : list A :=
  match l with
  | [] => [x]
  | y :: l' => if before x y then x :: l else y :: place x l'
  end.

Definition order_by (l : list A) : list A := fold_right place [] l.
End OrderBy.

Definition datatype_mismatch : exn :=
  Error "SQLITE_MISMATCH: datatype mismatch".

(** [LIMIT n], for a limit that SQLite has as an integer: a negative [n]
    puts no limit. *)
Definition first_rows {A} (n : Z) (l : list A) : list A :=
  if n <? 0 then l else take (Z.to_nat n) l.

(** [LIMIT ?], for a limit that is bound.  The driver binds a number as
    a 64-bit integer when it is one; a number past that range is bound
    as a float, which [LIMIT] refuses with a datatype mismatch. *)
Definition limit_rows {A} (n : Z) (l : list A) : outcome (list A) :=
  if (- 2 ^ 63 <? n) && (n <? 2 ^ 63) then Ok (first_rows n l)
  else Throw datatype_mismatch.

Definition of_session (sid : option string) (session_id : string) : bool :=
  match sid with
  | Some sid => String.eqb session_id sid
  | None => false
  end.

(** [SELECT state_data FROM agent_memories WHERE session_id = ? AND
    checkpoint_id = ?], first row. *)
Definition select_checkpoint (sid : option string) (cid : string)
  : M (option MemoryRow) :=
  do driver then fun w =>
    match agent_memories w with
    | None => (Throw (no_such_table "agent_memories"), w)
    | Some rows =>
        (Ok (head (List.filter (fun r => of_session sid (mem_session_id r)
                                    && String.eqb (mem_checkpoint_id r) cid)
                          rows)), w)
    end.

(** [SELECT state_data FROM agent_memories WHERE session_id = ?
    ORDER BY created_at DESC LIMIT 1], first row. *)
Definition select_latest_checkpoint (sid : option string)
  : M (option MemoryRow) :=
  do driver then fun w =>
    match agent_memories w with
    | None => (Throw (no_such_table "agent_memories"), w)
    | Some rows =>
        (Ok (head (first_rows 1
               (order_by (fun a b => created_at b <=? created_at a)
                  (List.filter (fun r => of_session sid (mem_session_id r)) rows)))),
         w)
    end.

(** [SELECT message_id, role, content, timestamp FROM agent_messages
    WHERE session_id = ? ORDER BY timestamp ASC LIMIT ?], all rows. *)
Definition select_messages (sid : option string) (limit : Z)
  : M (list MessageRow) :=
  do driver then fun w =>
    match agent_messages w with
    | None => (Throw (no_such_table "agent_messages"), w)
    | Some rows =>
        (limit_rows limit
           (order_by (fun a b => msg_timestamp a <=? msg_timestamp b)
              (List.filter (fun r => of_session sid (msg_session_id r)) rows)),
         w)
    end.

End SQL.

(** *** The class [SQLiteAgentMemory] *)

Module SQLiteAgentMemory.
Import SQL.

(** A message as [getMessages] returns it. *)
Record StoredMessage : Type := mkStoredMessage {
  id : string;
  role : string;
  content : string;
  timestamp : Z
}.

Definition defaultSchema : list SchemaRow :=
  [ mkSchemaRow "subject" "test-subject" "string";
    mkSchemaRow "name" "Erica" "string";
    mkSchemaRow "messages" "[]" "array" ].

(** [_initializeDefaultSchema]: a row that cannot be written is logged
    and skipped. *)
Fixpoint seed_schema (items : list SchemaRow) : M unit :=
  match items with
  | [] => ret tt
  | item :: rest =>
      do try_catch
           (insert_or_ignore_schema
              (schema_key item) (default_value item) (schema_type item))
           (fun _ => ret tt)
      then seed_schema rest
  end.

Definition _initializeDefaultSchema : M unit := seed_schema defaultSchema.

(** [initialize]: [this.db] is set before the first statement runs and
    stays set when a statement fails.  That the file cannot be opened is
    told to the callback of the constructor, outside this chain; such a
    database rejects every statement, which [faults] covers. *)
Definition initialize : M unit :=
  try_catch
    (do (fun w => (Ok tt, set_db_open true w)) then
     do create_agent_memories then
     do create_agent_messages then
     do create_agent_schema then
     _initializeDefaultSchema)
    (fun error => throw error).

(** [if (!this.db) { await this.initialize(); }] *)
Definition ensure_initialized : M unit := fun w =>
  if db_open w then (Ok tt, w) else initialize w.

Definition stateCache_set (key : string) (state : json) : M unit :=
  fun w => (Ok tt, set_stateCache (<[key := state]> (stateCache w)) w).

Definition nonempty (s : option string) : option string :=
  match s with
  | Some "" => None
  | _ => s
  end.

(** [saveCheckpoint(sessionId, state, checkpointId = null)] *)
Definition saveCheckpoint
    (sessionId : option string) (state : json) (checkpointId : option string)
  : M string :=
  do ensure_initialized then
  try_catch
    (let* checkpointId :=
       match nonempty checkpointId with
       | Some given => ret given
       | None =>
           let* now := Date_now in
           let* rnd := Math_random_toString36 in
           ret ("ckpt_" +:+ decimal now +:+ "_" +:+ substring_js 2 15 rnd)
       end in
     let stateData := stringify state in
     do insert_or_replace_memory sessionId checkpointId stateData then
     do stateCache_set (js_string sessionId +:+ ":" +:+ checkpointId) state then
     ret checkpointId)
    (fun error => throw error).

(** [loadCheckpoint(sessionId, checkpointId = null)]; the [null] it
    returns when it finds no row is [JNull]. *)
Definition loadCheckpoint
    (sessionId : option string) (checkpointId : option string) : M json :=
  do ensure_initialized then
  try_catch
    (let cacheKey :=
       js_string sessionId +:+ ":" +:+
       match nonempty checkpointId with Some c => c | None => "latest" end in
     fun w =>
       match stateCache w !! cacheKey with
       | Some cached => (Ok cached, w)
       | None =>
           (let* result :=
              match nonempty checkpointId with
              | Some c => select_checkpoint sessionId c
              | None => select_latest_checkpoint sessionId
              end in
            match result with
            | None => ret JNull
            | Some row =>
                match parse (state_data row) with
                | None => throw (Error "Unexpected token in JSON")
                | Some state =>
                    do stateCache_set cacheKey state then ret state
                end
            end) w
       end)
    (fun error => throw error).

(** [saveMessage(sessionId, messageId, role, content)] *)
Definition saveMessage
    (sessionId : option string) (messageId role : string)
    (content : option string) : M unit :=
  do ensure_initialized then
  try_catch
    (insert_or_replace_message sessionId messageId role content)
    (fun error => throw error).

(** [getMessages(sessionId, limit = 100)] *)
Definition getMessages (sessionId : option string) (limit : option Z)
  : M (list StoredMessage) :=
  let limit := match limit with Some n => n | None => 100 end in
  do ensure_initialized then
  try_catch
    (let* messages := select_messages sessionId limit in
     ret (map (fun msg => mkStoredMessage (message_id msg) (msg_role msg)
                            (msg_content msg) (msg_timestamp msg))
              messages))
    (fun error => throw error).

(** [clearCache()] *)
Definition clearCache : M unit :=
  fun w => (Ok tt, set_stateCache ∅ w).

(** [close()]: the tables stay on disk; the cache is dropped. *)
Definition close : M unit := fun w =>
  if db_open w then
    (do driver then
     fun w => (Ok tt, set_stateCache ∅ (set_db_open false w))) w
  else (Ok tt, w).

End SQLiteAgentMemory.

(** *** Notions for the statements about the store *)

Module StoreNotions.
Import SQL SQLiteAgentMemory.

(** [P] does not depend on what an update writes. *)
Definition ignores_faults (P : World -> Prop) : Prop :=
  forall f w, P w -> P (set_faults f w).
Definition ignores_clock (P : World -> Prop) : Prop :=
  forall c w, P w -> P (set_clock c w).
Definition ignores_random (P : World -> Prop) : Prop :=
  forall r w, P w -> P (set_random r w).
Definition ignores_schema (P : World -> Prop) : Prop :=
  forall t w, P w -> P (set_agent_schema t w).
Definition ignores_cache (P : World -> Prop) : Prop :=
  forall c w, P w -> P (set_stateCache c w).
Definition ignores_memories (P : World -> Prop) : Prop :=
  forall t w, P w -> P (set_agent_memories t w).
Definition ignores_messages (P : World -> Prop) : Prop :=
  forall t w, P w -> P (set_agent_messages t w).
Definition ignores_opening (P : World -> Prop) : Prop :=
  forall w, P w -> P (set_db_open true w).
Definition ignores_new_memories (P : World -> Prop) : Prop :=
  forall w, agent_memories w = None -> P w ->
            P (set_agent_memories (Some []) w).
Definition ignores_new_messages (P : World -> Prop) : Prop :=
  forall w, agent_messages w = None -> P w ->
            P (set_agent_messages (Some []) w).

(** The checkpoint id [saveCheckpoint] makes up when it is given none. *)
Definition generated_id (now : Z) (rnd : string) : string :=
  "ckpt_" +:+ decimal now +:+ "_" +:+ substring_js 2 15 rnd.

(** A digit or a letter. *)
Definition alphanumeric_char (c : ascii) : bool :=
  let n := nat_of_ascii c in
  ((48 <=? n) && (n <=? 57) || (97 <=? n) && (n <=? 122)
   || (65 <=? n) && (n <=? 90))%nat.

Fixpoint alphanumeric (s : string) : bool :=
  match s with
  | EmptyString => true
  | String c r => alphanumeric_char c && alphanumeric r
  end.

(** The texts [Math.random().toString(36)] produces: ["0"], or ["0."]
    and the digits of the fraction. *)
Definition base36_text (s : string) : bool :=
  match s with
  | String "0" EmptyString => true
  | String "0" (String "." digits) => alphanumeric digits
  | _ => false
  end.

(** The message [getMessages] makes of a row. *)
Definition stored (msg : MessageRow) : StoredMessage :=
  mkStoredMessage (message_id msg) (msg_role msg) (msg_content msg)
                  (msg_timestamp msg).

(** The session has no checkpoint: no row on disk and no latest state in
    the cache. *)
Definition no_checkpoint (sessionId : string) (w : World) : Prop :=
  stateCache w !! (sessionId +:+ ":latest") = None
  /\ forall rows,
       agent_memories w = Some rows ->
       List.filter (fun r => String.eqb (mem_session_id r) sessionId) rows
       = [].

End StoreNotions.

(* ===================================================================== *)
(** ** Prompt templates: [prompt-template.service.js] *)
(* ===================================================================== *)

Module PromptTemplateService.

(** The system message of a template.  Each one is a fixed text of the
    source into which the subject (and the name) are spliced; the text
    itself is not reproduced. *)
Inductive SystemMessage : Type :=
| GeneralTutor (name subject : string)
| MathematicsTutor
| ScienceTutor (subject : option string)
| LanguageArtsTutor (subject : option string)
| HistoryTutor (subject : option string).

Record PromptTemplate : Type := mkPromptTemplate {
  template : SystemMessage;
  inputVariables : list string
}.

Definition lower_char (c : ascii) : ascii :=
  let n := nat_of_ascii c in
  if ((65 <=? n) && (n <=? 90))%nat then ascii_of_nat (n + 32) else c.

Fixpoint toLowerCase (s : string) : string :=
  match s with
  | EmptyString => ""
  | String c r => String (lower_char c) (toLowerCase r)
  end.

Definition one_of (s : string) (cases : list string) : bool :=
  existsb (String.eqb s) cases.

(** [a || b] on strings that may be [undefined]. *)
Definition or_else (a : option string) (b : string) : string :=
  match a with
  | Some "" | None => b
  | Some a => a
  end.

(** [createTutorPromptTemplate(options = {})] *)
Definition createTutorPromptTemplate (subject name : option string)
  : PromptTemplate :=
  let subject := or_else subject "various subjects" in
  let name := or_else name "AI Tutor" in
  mkPromptTemplate (GeneralTutor name subject) ["subject"; "name"].

(** [createSubjectPromptTemplate(subject)]: the [switch] on
    [subject?.toLowerCase()]. *)
Definition createSubjectPromptTemplate (subject : option string)
  : PromptTemplate :=
  match option_map toLowerCase subject with
  | Some s =>
      if one_of s ["math"; "mathematics"] then
        mkPromptTemplate MathematicsTutor ["subject"]
      else if one_of s ["science"; "biology"; "chemistry"; "physics"] then
        mkPromptTemplate (ScienceTutor subject) ["subject"]
      else if one_of s ["language arts"; "english"; "literature"] then
        mkPromptTemplate (LanguageArtsTutor subject) ["subject"]
      else if one_of s ["history"; "social studies"] then
        mkPromptTemplate (HistoryTutor subject) ["subject"]
      else createTutorPromptTemplate subject None
  | None => createTutorPromptTemplate subject None
  end.

End PromptTemplateService.

(* ===================================================================== *)
(** ** The workflow: [agent-flow.service.js] *)
(* ===================================================================== *)

Module AgentFlowService.
Import PromptTemplateService.

(** The state that travels through the nodes.  A property that is
    [undefined] is [None]; [extra] holds the properties a loaded
    checkpoint has beside these. *)
Record State : Type := mkState {
  subject : option string;
  name : option string;
  messages : option (list json);
  sessionId : option string;
  systemPrompt : option string;
  response : option string;
  checkpointId : option string;
  extra : list (string * json)
}.

Definition set_systemPrompt (v : string) (s : State) : State :=
  mkState (subject s) (name s) (messages s) (sessionId s) (Some v)
          (response s) (checkpointId s) (extra s).
Definition set_response (v : string) (s : State) : State :=
  mkState (subject s) (name s) (messages s) (sessionId s) (systemPrompt s)
          (Some v) (checkpointId s) (extra s).
Definition set_messages (v : list json) (s : State) : State :=
  mkState (subject s) (name s) (Some v) (sessionId s) (systemPrompt s)
          (response s) (checkpointId s) (extra s).
Definition set_checkpointId (v : string) (s : State) : State :=
  mkState (subject s) (name s) (messages s) (sessionId s) (systemPrompt s)
          (response s) (Some v) (extra s).

(** *** States as JSON objects *)

Definition prop (key : string) (value : option string)
  : list (string * json) :=
  match value with
  | Some s => [(key, JStr s)]
  | None => []
  end.

(** The object a state is, as [JSON.stringify] and the cache see it. *)
Definition state_to_json (s : State) : json :=
  JObj (prop "subject" (subject s) ++ prop "name" (name s)
        ++ match messages s with
           | Some l => [("messages", JArr l)]
           | None => []
           end
        ++ prop "sessionId" (sessionId s)
        ++ prop "systemPrompt" (systemPrompt s)
        ++ prop "response" (response s)
        ++ prop "checkpointId" (checkpointId s)
        ++ extra s)%list.

(** [o.key]: of a key written twice in a text, [JSON.parse] keeps the
    last value. *)
Fixpoint obj_get (key : string) (o : list (string * json)) : option json :=
  match o with
  | [] => None
  | (k, v) :: o' =>
      match obj_get key o' with
      | Some v' => Some v'
      | None => if String.eqb k key then Some v else None
      end
  end.

(** [o.key = v]: the value of the key is replaced where the key stands,
    and a new key goes to the end. *)
Definition obj_set (key : string) (v : json) (o : list (string * json))
  : list (string * json) :=
  if existsb (fun kv => String.eqb (fst kv) key) o
  then map (fun kv => if String.eqb (fst kv) key then (fst kv, v) else kv) o
  else (o ++ [(key, v)])%list.

Definition string_prop (key : string) (o : list (string * json))
  : option string :=
  match obj_get key o with
  | Some (JStr s) => Some s
  | _ => None
  end.

Definition state_keys : list string :=
  ["subject"; "name"; "messages"; "sessionId"; "systemPrompt"; "response";
   "checkpointId"].

(** A property that is a string, or that is not there. *)
Definition string_or_absent (key : string) (o : list (string * json)) : bool :=
  match obj_get key o with
  | None | Some (JStr _) => true
  | Some _ => false
  end.

(** The checkpoints a state of the workflow is saved as: an object whose
    [subject], [name], [sessionId], [systemPrompt], [response] and
    [checkpointId] are strings and whose [messages] is an array, where
    they are there at all.  A value that is no object is among them when
    it is falsy: [executeAgentFlow] then starts from a new state. *)
Definition shaped (j : json) : bool :=
  match j with
  | JObj o =>
      forallb (fun key => string_or_absent key o)
              ["subject"; "name"; "sessionId"; "systemPrompt"; "response";
               "checkpointId"]
      && match obj_get "messages" o with
         | None | Some (JArr _) => true
         | Some _ => false
         end
  | _ => negb (truthy j)
  end.

(** The state a loaded checkpoint is, for a checkpoint that is [shaped].
    The code goes on with the loaded value as it is, whatever its
    properties hold: a [subject] that is a number makes the start node
    throw, and a [messages] that is one makes the agent node throw.  The
    record above has no place for such values, and what this function
    makes of them (a property of another type is dropped, a value that
    is no object has no properties) is not what the code does; every
    statement about a turn that resumes from a checkpoint is made for a
    checkpoint that is [shaped]. *)
Definition state_of_json (j : json) : State :=
  match j with
  | JObj o =>
      mkState (string_prop "subject" o) (string_prop "name" o)
              (match obj_get "messages" o with
               | Some (JArr l) => Some l
               | _ => None
               end)
              (string_prop "sessionId" o) (string_prop "systemPrompt" o)
              (string_prop "response" o) (string_prop "checkpointId" o)
              (List.filter (fun kv => negb (one_of (fst kv) state_keys)) o)
  | _ => mkState None None None None None None None []
  end.

(** [{ role, content, id }] *)
Definition message_object (role content id : string) : json :=
  JObj [("role", JStr role); ("content", JStr content); ("id", JStr id)].

(** *** What the workflow returns *)

Record AgentState : Type := mkAgentState {
  as_subject : option string;
  as_name : option string;
  as_checkpointId : option string
}.

(** [timestamp] is the instant [new Date()] read, whose ISO text
    [toISOString()] writes. *)
Record Result : Type := mkResult {
  content : option string;
  agentState : AgentState;
  timestamp : Z;
  error : option string
}.

(** *** The collaborators *)

(** [{ id, subject }], as the agent node hands it to the generator. *)
Record MinimalSession : Type := mkMinimalSession {
  ms_id : option string;
  ms_subject : option string
}.

(** The text generator, [openAIService.generateTutorResponse(userMessage,
    session, messageHistory)], as the agent node sees it: a call that
    returns a text or throws.  What it does is decided by the provider
    behind it, so the workflow is stated for any such call. *)
Definition TextGenerator : Type :=
  string -> MinimalSession -> list json -> M string.

(** The part of a memory manager the memory node calls. *)
Record MemoryManager : Type := mkMemoryManager {
  mm_saveMessage :
    option string -> string -> string -> option string -> M unit;
  mm_saveCheckpoint : option string -> json -> option string -> M string
}.

Definition sqliteMemoryService : MemoryManager :=
  mkMemoryManager SQLiteAgentMemory.saveMessage SQLiteAgentMemory.saveCheckpoint.

(** The tutor session the caller passes. *)
Record TutorSession : Type := mkTutorSession {
  ts_id : string;
  ts_subject : option string;
  ts_name : option string
}.

(** A message of the history the caller passes. *)
Record HistoryMessage : Type := mkHistoryMessage {
  hm_role : string;
  hm_content : string;
  hm_id : option string
}.

Definition fallback_response : string :=
  "I'm having trouble processing your request. Please try again.".

Definition workflow_apology : string :=
  "I apologize, but there was an error processing your request.".

Definition flow_apology : string :=
  "I apologize, but there was an error processing your request. The system is being updated. Please try again later.".

(** *** The nodes *)

(** [nodes.start] *)
Definition start (state : State) (input : string) : M State :=
  let subjectSpecificPrompt := createSubjectPromptTemplate (subject state) in
  ret (set_systemPrompt
         ("You are a friendly assistant called " +:+ js_string (name state)
          +:+ " who can answer basic questions on "
          +:+ js_string (subject state))
         state).

(** [state.messages || []] *)
Definition messages_or_empty (state : State) : list json :=
  match messages state with
  | Some l => l
  | None => []
  end.

(** [nodes.agent] *)
Definition agent (generateTutorResponse : TextGenerator)
    (state : State) (input : string) : M State :=
  let formattedHistory :=
    JObj (("role", JStr "system") :: prop "content" (systemPrompt state))
    :: messages_or_empty state in
  let minimalSession := mkMinimalSession (sessionId state) (subject state) in
  let* response :=
    try_catch
      (generateTutorResponse input minimalSession formattedHistory)
      (fun modelError => ret fallback_response) in
  ret (set_response response state).

(** [[...(state.messages || []), { role: 'assistant', content:
    state.response, id: messageId }]] *)
Definition with_assistant_message (state : State) (messageId : string)
  : list json :=
  (messages_or_empty state
   ++ [JObj (("role", JStr "assistant")
             :: prop "content" (response state)
             ++ [("id", JStr messageId)])])%list.

(** [nodes.memory] *)
Definition memory (memoryManager : option MemoryManager) (state : State)
  : M State :=
  match memoryManager with
  | Some memoryManager =>
      try_catch
        (let* now := Date_now in
         let messageId := "msg_" +:+ decimal now in
         do mm_saveMessage memoryManager
              (sessionId state) messageId "assistant" (response state) then
         let messages := with_assistant_message state messageId in
         let* checkpointId :=
           mm_saveCheckpoint memoryManager (sessionId state)
             (state_to_json (set_messages messages state)) None in
         ret (set_checkpointId checkpointId (set_messages messages state)))
        (fun memoryError => ret state)
  | None => ret state
  end.

(** [nodes.end] *)
Definition end_ (state : State) : M Result :=
  let* now := Date_now in
  ret (mkResult (response state)
         (mkAgentState (subject state) (name state) (checkpointId state))
         now None).

(** The four nodes of a workflow. *)
Record Nodes : Type := mkNodes {
  node_start : State -> string -> M State;
  node_agent : State -> string -> M State;
  node_memory : State -> M State;
  node_end : State -> M Result
}.

(** The body of the [try] of [execute]: the nodes in sequence. *)
Definition run_nodes (nodes : Nodes) (state : State) (input : string)
  : M Result :=
  let* startState := node_start nodes state input in
  let* agentState := node_agent nodes startState input in
  let* memoryState := node_memory nodes agentState in
  node_end nodes memoryState.

(** [workflow.execute] *)
Definition execute (nodes : Nodes) (state : State) (input : string)
  : M Result :=
  try_catch
    (run_nodes nodes state input)
    (fun error =>
       let* now := Date_now in
       ret (mkResult (Some workflow_apology)
              (mkAgentState (subject state) (name state) None)
              now (Some (message error)))).

(** [createAgentFlow(memoryManager = sqliteMemoryService)]: the nodes of
    the workflow it returns. *)
Definition createAgentFlow (generateTutorResponse : TextGenerator)
    (memoryManager : option MemoryManager) : Nodes :=
  mkNodes start (agent generateTutorResponse) (memory memoryManager) end_.

(** *** A turn *)

(** [_formatMessageHistory(messageHistory)]: a message without an [id]
    gets [legacy_<now>_<random>]. *)
Fixpoint _formatMessageHistory (messageHistory : list HistoryMessage)
  : M (list json) :=
  match messageHistory with
  | [] => ret []
  | m :: rest =>
      let* id :=
        match SQLiteAgentMemory.nonempty (hm_id m) with
        | Some id => ret id
        | None =>
            let* now := Date_now in
            let* rnd := Math_random_toString36 in
            ret ("legacy_" +:+ decimal now +:+ "_" +:+ substring_js 2 10 rnd)
        end in
      let* rest' := _formatMessageHistory rest in
      ret (message_object (hm_role m) (hm_content m) id :: rest')
  end.

(** The state of a session without a checkpoint. *)
Definition fresh_state (tutorSession : TutorSession)
    (formattedHistory : list json) : State :=
  mkState (Some (or_else (ts_subject tutorSession) "various subjects"))
          (Some (or_else (ts_name tutorSession) "AI Tutor"))
          (Some formattedHistory)
          (Some (ts_id tutorSession))
          None None None [].

(** The [try] of [executeAgentFlow] that saves the user message and adds
    it to the state.

    A loaded state is the very object the cache holds under
    [<id>:latest]; assigning [state.messages] therefore changes the
    cached object too, which the model writes back. *)
Definition save_user_message (userMessage : string)
    (tutorSession : TutorSession) (initialState : json) (state : State)
  : M State :=
  try_catch
    (let* now := Date_now in
     let messageId := "msg_" +:+ decimal now in
     do SQLiteAgentMemory.saveMessage
          (Some (ts_id tutorSession)) messageId "user" (Some userMessage)
     then
     let messages :=
       (messages_or_empty state
        ++ [message_object "user" userMessage messageId])%list in
     do match initialState with
        | JObj o =>
            SQLiteAgentMemory.stateCache_set
              (ts_id tutorSession +:+ ":latest")
              (JObj (obj_set "messages" (JArr messages) o))
        | _ => ret tt
        end then
     ret (set_messages messages state))
    (fun _ => ret state).

(** [executeAgentFlow(userMessage, tutorSession, messageHistory = [])].

    Every session's workflow is [createAgentFlow()] over the same store,
    so the registry [this.workflows] decides no result and is left out. *)
Definition executeAgentFlow (generateTutorResponse : TextGenerator)
    (userMessage : string) (tutorSession : TutorSession)
    (messageHistory : list HistoryMessage) : M Result :=
  try_catch
    (let nodes :=
       createAgentFlow generateTutorResponse (Some sqliteMemoryService) in
     let* formattedHistory := _formatMessageHistory messageHistory in
     let* initialState :=
       try_catch
         (SQLiteAgentMemory.loadCheckpoint (Some (ts_id tutorSession)) None)
         (fun _ => ret JNull) in
     let state :=
       if truthy initialState then state_of_json initialState
       else fresh_state tutorSession formattedHistory in
     let* state :=
       save_user_message userMessage tutorSession initialState state in
     execute nodes state userMessage)
    (fun error =>
       let* now := Date_now in
       ret (mkResult (Some flow_apology)
              (mkAgentState
                 (Some (or_else (ts_subject tutorSession) "various subjects"))
                 (Some (or_else (ts_name tutorSession) "AI Tutor"))
                 None)
              now (Some (message error)))).

End AgentFlowService.

(** *** Notions for the statements about the workflow *)

Module FlowNotions.
Import AgentFlowService.

(** The text generator fails on every call. *)
Definition always_fails (g : TextGenerator) : Prop :=
  forall input session history w,
    exists e w', g input session history w = (Throw e, w').

(** What the session would resume from is a state of the workflow: the
    latest state of the session in the cache, if there is one, is
    [shaped], and so is what every row of the session holds. *)
Definition well_formed_checkpoint (sessionId : string) (w : World) : Prop :=
  (forall j,
     stateCache w !! (sessionId +:+ ":latest") = Some j -> shaped j = true)
  /\ forall rows row,
       agent_memories w = Some rows -> In row rows ->
       mem_session_id row = sessionId ->
       exists j, parse (state_data row) = Some j /\ shaped j = true.

(** What no node changes: the subject and the name of the state. *)
Definition same_identity (s s' : State) : Prop :=
  subject s' = subject s /\ name s' = name s.

(** A stage of the workflow throws [e], the stages before it having
    returned. *)
Inductive stage_throws (nodes : Nodes) (state : State) (input : string)
    (w : World) (e : exn) (w' : World) : Prop :=
| start_throws :
    node_start nodes state input w = (Throw e, w') ->
    stage_throws nodes state input w e w'
| agent_throws s1 w1 :
    node_start nodes state input w = (Ok s1, w1) ->
    node_agent nodes s1 input w1 = (Throw e, w') ->
    stage_throws nodes state input w e w'
| memory_throws s1 w1 s2 w2 :
    node_start nodes state input w = (Ok s1, w1) ->
    node_agent nodes s1 input w1 = (Ok s2, w2) ->
    node_memory nodes s2 w2 = (Throw e, w') ->
    stage_throws nodes state input w e w'
| end_throws s1 w1 s2 w2 s3 w3 :
    node_start nodes state input w = (Ok s1, w1) ->
    node_agent nodes s1 input w1 = (Ok s2, w2) ->
    node_memory nodes s2 w2 = (Ok s3, w3) ->
    node_end nodes s3 w3 = (Throw e, w') ->
    stage_throws nodes state input w e w'.

End FlowNotions.

(* ===================================================================== *)
(** ** Sample worlds *)
(* ===================================================================== *)

Module Samples.
Import SQL SQLiteAgentMemory AgentFlowService StoreNotions.

(** Clock readings [step] milliseconds apart. *)
Definition ticking (start step : Z) (n : nat) : list Z :=
  map (fun i => start + step * Z.of_nat i) (seq 0 n).

(** An initialised store without rows, an empty cache, and the given
    clock, random source and driver. *)
Definition opened_store (clock : list Z) (random : list string)
    (faults : list (option string)) : World :=
  mkWorld true (Some []) (Some []) (Some defaultSchema) ∅ clock random faults.

Definition physics_session : TutorSession :=
  mkTutorSession "s1" (Some "physics") None.

(** A session whose subject is the empty string. *)
Definition untitled_session : TutorSession :=
  mkTutorSession "s1" (Some "") None.

(** A generator that fails at once. *)
Definition failing_generator : TextGenerator :=
  fun _ _ _ => throw (Error "GenerationUnavailable").

Definition state_A : json :=
  JObj [("subject", JStr "physics"); ("messages", JArr [])].

Definition state_B : json :=
  JObj [("subject", JStr "physics");
        ("messages", JArr [message_object "user" "Explain" "msg_1"])].

(** A second apart, as many readings as the runs below take. *)
Definition steady_world : World :=
  opened_store (ticking 1700000000000 1000 12)
               ["0.4fzyo82mvyr"; "0.k2x9q0c81ab"] [].

(** [Math.random()] answers one half, whose text in base 36 is ["0.i"]. *)
Definition half_world : World :=
  opened_store (ticking 1700000000000 1000 12) ["0.i"] [].

(** The clock answers the same millisecond to every reading of a turn. *)
Definition same_millisecond_world : World :=
  opened_store (repeat 1700000000000 12%nat) ["0.4fzyo82mvyr"] [].

(** The driver runs the first statement and rejects the second. *)
Definition disk_full_world : World :=
  opened_store (ticking 1700000000000 1000 12) ["0.4fzyo82mvyr"]
               [None; Some "SQLITE_FULL: database or disk is full"].

(** Session [s1] has one checkpoint on disk, the state [state_B]. *)
Definition resumed_world : World :=
  mkWorld true
    (Some [mkMemoryRow "s1" "ckpt_1699999999000_4fzyo82mvyr"
             (stringify state_B) 1699999999])
    (Some []) (Some defaultSchema) ∅
    (ticking 1700000000000 1000 12) ["0.k2x9q0c81ab"] [].

(** Two messages of session [s1], the later one written first. *)
Definition two_messages_world : World :=
  mkWorld true (Some [])
    (Some [mkMessageRow "s1" "msg_b" "assistant" "Inertia." 1700000005;
           mkMessageRow "s1" "msg_a" "user" "Explain" 1700000001;
           mkMessageRow "s2" "msg_c" "user" "Hello" 1700000003])
    (Some defaultSchema) ∅ [] [] [].

(** A state as the agent node hands it to the memory node. *)
Definition answered_state : State :=
  mkState (Some "physics") (Some "AI Tutor")
          (Some [message_object "user" "Explain" "msg_1699999999000"])
          (Some "s1") (Some "You are a friendly assistant")
          (Some "Inertia.") None [].

(** A workflow whose agent node throws. *)
Definition broken_nodes : Nodes :=
  mkNodes start (fun _ _ => throw (Error "agent node failed"))
          (memory None) end_.

(** A generator that repeats the question. *)
Definition echo_generator : TextGenerator :=
  fun input _ _ => ret ("echo " +:+ input).

(** Three turns of one session, a second between any two readings of
    the clock: the world they leave. *)
Definition after_three_turns : World :=
  snd ((do executeAgentFlow echo_generator "Explain" physics_session [] then
        do executeAgentFlow echo_generator "More" physics_session [] then
        executeAgentFlow echo_generator "Third" physics_session [])
         (opened_store (ticking 1700000000000 1000 24)
                       ["0.4fzyo82mvyr"; "0.k2x9q0c81ab"; "0.9d1m3zq7c2x"] [])).

(** The contents of the messages of a checkpoint. *)
Definition message_contents (state_data : string) : list (option string) :=
  match parse state_data with
  | Some j =>
      map (fun m => match m with
                    | JObj o => string_prop "content" o
                    | _ => None
                    end)
          (messages_or_empty (state_of_json j))
  | None => []
  end.

(** [saveCheckpoint(s1, A); loadCheckpoint(s1); saveCheckpoint(s1, B);
    loadCheckpoint(s1)]: the two states loaded. *)
Definition save_load_save_load : M (json * json) :=
  do saveCheckpoint (Some "s1") state_A None then
  let* first := loadCheckpoint (Some "s1") None in
  do saveCheckpoint (Some "s1") state_B None then
  let* second := loadCheckpoint (Some "s1") None in
  ret (first, second).

(** The longest run of letters and digits a text ends with. *)
Fixpoint alphanumeric_tail (s : string) : nat :=
  match s with
  | EmptyString => 0
  | String c r =>
      if StoreNotions.alphanumeric s then String.length s
      else alphanumeric_tail r
  end.

End Samples.

(* ===================================================================== *)
(** ** More of the store: the schema, and what its tables keep *)
(* ===================================================================== *)

(** *** [getDefaultSchema] of the class [SQLiteAgentMemory] *)

Module SQLiteAgentSchema.
Import SQL SQLiteAgentMemory.

(** [SELECT key, default_value, type FROM agent_schema], all rows. *)
Definition select_schema : M (list SchemaRow) :=
  do driver then fun w =>
    match agent_schema w with
    | None => (Throw (no_such_table "agent_schema"), w)
    | Some rows => (Ok rows, w)
    end.

(** The default of a key.  What [parseFloat] makes of a text need not be
    an integer, nor a number JSON can write; it is kept as the text it
    was read from. *)
Inductive Default : Type :=
| Value (j : json)
| ParsedFloat (text : string).

(** The body of the [forEach]: the default of one row, by its type.  A
    text of type [array] that [JSON.parse] refuses is kept as a string. *)
Definition item_default (item : SchemaRow) : Default :=
  if String.eqb (schema_type item) "array" then
    match parse (default_value item) with
    | Some j => Value j
    | None => Value (JStr (default_value item))
    end
  else if String.eqb (schema_type item) "number" then
    ParsedFloat (default_value item)
  else if String.eqb (schema_type item) "boolean" then
    Value (JBool (String.eqb (default_value item) "true"))
  else Value (JStr (default_value item)).

(** [schema[key] = { default: v }] *)
Definition schema_set (key : string) (v : Default)
    (schema : list (string * Default)) : list (string * Default) :=
  if existsb (fun kv => String.eqb (fst kv) key) schema
  then map (fun kv => if String.eqb (fst kv) key then (fst kv, v) else kv)
           schema
  else (schema ++ [(key, v)])%list.

(** The schema returned when the table cannot be read. *)
Definition fallbackSchema : list (string * Default) :=
  [ ("subject", Value (JStr "test-subject"));
    ("name", Value (JStr "Erica"));
    ("messages", Value (JArr [])) ].

(** [getDefaultSchema()] *)
Definition getDefaultSchema : M (list (string * Default)) :=
  do ensure_initialized then
  try_catch
    (let* schemaItems := select_schema in
     ret (fold_left
            (fun schema item =>
               schema_set (schema_key item) (item_default item) schema)
            schemaItems []))
    (fun error => ret fallbackSchema).

End SQLiteAgentSchema.

(** *** Notions for the statements about the tables *)

Module TableNotions.
Import SQL SQLiteAgentMemory.

(** The driver runs every statement it is given. *)
Definition runs_all (faults : list (option string)) : bool :=
  forallb (fun f => match f with None => true | Some _ => false end) faults.

Definition healthy (w : World) : Prop := runs_all (faults w) = true.

(** The columns a [UNIQUE] constraint names. *)
Definition checkpoint_key (r : MemoryRow) : string * string :=
  (mem_session_id r, mem_checkpoint_id r).
Definition message_key (r : MessageRow) : string * string :=
  (msg_session_id r, message_id r).

(** No table holds two rows with the same key. *)
Definition unique_keys (w : World) : Prop :=
  (forall rows, agent_memories w = Some rows ->
                List.NoDup (map checkpoint_key rows))
  /\ (forall rows, agent_messages w = Some rows ->
                   List.NoDup (map message_key rows))
  /\ (forall rows, agent_schema w = Some rows ->
                   List.NoDup (map schema_key rows)).

(** The rows of a table that may not exist yet. *)
Definition rows_of {A} (table : option (list A)) : list A :=
  match table with
  | Some rows => rows
  | None => []
  end.

(** What [INSERT OR IGNORE] makes of the rows of [agent_schema]. *)
Definition seeded (rows : list SchemaRow) (item : SchemaRow)
  : list SchemaRow :=
  if existsb (fun r => String.eqb (schema_key r) (schema_key item)) rows
  then rows
  else (rows ++ [mkSchemaRow (schema_key item) (default_value item)
                             (schema_type item)])%list.

(** The world a run of [initialize] leaves when the driver runs its six
    statements. *)
Definition initialized (w : World) : World :=
  mkWorld true
          (Some (rows_of (agent_memories w)))
          (Some (rows_of (agent_messages w)))
          (Some (fold_left seeded defaultSchema (rows_of (agent_schema w))))
          (stateCache w) (clock w) (random w)
          (drop 6 (faults w)).

(** A text without a colon. *)
Fixpoint colon_free (s : string) : bool :=
  match s with
  | EmptyString => true
  | String c r => negb (Ascii.eqb c ":") && colon_free r
  end.

End TableNotions.

(** *** Sample stores *)

Module TableSamples.
Import SQL SQLiteAgentMemory Samples.

(** A database that has never been opened. *)
Definition fresh_database (faults : list (option string)) : World :=
  mkWorld false None None None ∅ [] [] faults.

(** Two messages on disk, and a driver that runs one statement and
    rejects the next. *)
Definition locked_world : World :=
  set_faults [None; Some "SQLITE_BUSY: database is locked"]
             two_messages_world.

(** Two checkpoints of session [s1], the younger one written first, and
    one of session [s2]; nothing in the cache. *)
Definition two_checkpoints_world : World :=
  mkWorld true
    (Some [mkMemoryRow "s1" "c2" (stringify state_B) 1700000005;
           mkMemoryRow "s1" "c1" (stringify state_A) 1700000001;
           mkMemoryRow "s2" "c3" (stringify state_A) 1700000009])
    (Some []) (Some defaultSchema) ∅ [] [] [].

(** What an operation answers, when it returns. *)
Definition answer {A} (default : A) (run : outcome A * World) : A :=
  match fst run with
  | Ok a => a
  | Throw _ => default
  end.

End TableSamples.

(* ===================================================================== *)
(** * Properties *)
(* ===================================================================== *)

(** ** The codec reads back what it writes *)

Module JSONFacts.

Lemma append_cons (x : ascii) (a b : string) :
  String x a +:+ b = String x (a +:+ b).
Proof. reflexivity. Qed.

Lemma append_empty (b : string) : "" +:+ b = b.
Proof. reflexivity. Qed.

Lemma append_assoc (a b c : string) : (a +:+ b) +:+ c = a +:+ (b +:+ c).
Proof.
  induction a as [|x a IH]; [reflexivity|].
  rewrite !append_cons. now rewrite IH.
Qed.

Lemma length_append (a b : string) :
  String.length (a +:+ b) = (String.length a + String.length b)%nat.
Proof.
  induction a as [|x a IH]; [reflexivity|].
  rewrite append_cons. simpl. now rewrite IH.
Qed.

Lemma read_string_escape_char (c : ascii) (tl : string) :
  read_string (escape_char c +:+ tl) =
  match read_string tl with
  | Some (t, rest) => Some (String c t, rest)
  | None => None
  end.
Proof.
  destruct c as [[] [] [] [] [] [] [] []]; reflexivity.
Qed.

Lemma read_string_escape (s rest : string) :
  read_string (escape s +:+ String dquote rest) = Some (s, rest).
Proof.
  induction s as [|c s IH].
  - reflexivity.
  - cbn [escape]. rewrite append_assoc, read_string_escape_char, IH. reflexivity.
Qed.

Lemma read_string_quote (s rest : string) :
  read_string (after_head (quote s +:+ rest)) = Some (s, rest).
Proof.
  unfold quote. rewrite append_cons. cbn [after_head].
  rewrite append_assoc, append_cons, append_empty. apply read_string_escape.
Qed.

Lemma read_digits_no_digit (rest : string) :
  no_digit rest -> read_digits rest = (Decimal.Nil, rest).
Proof. destruct rest as [|c r]; cbn; [reflexivity|]. now intros ->. Qed.

Lemma read_digits_text (u : Decimal.uint) (rest : string) :
  no_digit rest ->
  read_digits (NilEmpty.string_of_uint u +:+ rest) = (u, rest).
Proof.
  intros Hrest.
  induction u as [|u IH|u IH|u IH|u IH|u IH|u IH|u IH|u IH|u IH|u IH];
    cbn [NilEmpty.string_of_uint];
    rewrite ?append_cons, ?append_empty;
    [now apply read_digits_no_digit | cbn [read_digits digit_of]; rewrite IH; reflexivity ..].
Qed.

Lemma read_value_plain (f : nat) (s : string) :
  special_head s = false ->
  read_value (S f) s =
  match read_number s with
  | Some (n, rest) => Some (JNum n, rest)
  | None => None
  end.
Proof.
  unfold special_head. intros H.
  repeat (apply orb_false_elim in H; destruct H as [H ?]).
  cbn [read_value]. 
  repeat match goal with E : starts_with _ _ = false |- _ => rewrite E; clear E end.
  reflexivity.
Qed.

Lemma digit_head (c : ascii) (r : string) :
  is_digit c = true \/ c = "-"%char ->
  special_head (String c r) = false /\ starts_with "]" (String c r) = false
  /\ starts_with "}" (String c r) = false.
Proof.
  intros [H | ->]; [|repeat split; reflexivity].
  revert H. destruct c as [[] [] [] [] [] [] [] []]; cbn; intros H;
    try discriminate H; repeat split; reflexivity.
Qed.

Lemma uint_text_head (u : Decimal.uint) :
  u <> Decimal.Nil ->
  exists c r, NilEmpty.string_of_uint u = String c r /\ is_digit c = true.
Proof.
  destruct u; [congruence | intros _; cbn; eauto ..].
Qed.

Lemma number_text_head (n : Z) :
  exists c r, number_text n = String c r /\ (is_digit c = true \/ c = "-"%char).
Proof.
  unfold number_text. destruct n as [|p|p]; cbn [Z.to_int].
  - cbn. eauto.
  - destruct (uint_text_head (Pos.to_uint p)) as (c & r & -> & H);
      [apply Unsigned.to_uint_nonnil | eauto].
  - eauto.
Qed.

Lemma read_number_text (n : Z) (rest : string) :
  no_digit rest -> read_number (number_text n +:+ rest) = Some (n, rest).
Proof.
  intros Hrest. unfold number_text.
  pose proof (DecimalZ.of_to n) as Hn.
  destruct n as [|p|p]; cbn [Z.to_int] in *.
  - cbn [NilEmpty.string_of_uint]. rewrite !append_cons, append_empty.
    cbn [read_number Ascii.eqb Bool.eqb read_digits digit_of].
    rewrite read_digits_no_digit by assumption. reflexivity.
  - destruct (uint_text_head (Pos.to_uint p)) as (c & r & E & Hc);
      [apply Unsigned.to_uint_nonnil|].
    pose proof (read_digits_text (Pos.to_uint p) rest Hrest) as Hd.
    rewrite E in *. rewrite append_cons in *.
    cbn [read_number].
    replace (Ascii.eqb c "-") with false
      by (revert Hc; destruct c as [[] [] [] [] [] [] [] []]; cbn; congruence).
    rewrite Hd.
    pose proof (Unsigned.to_uint_nonnil p) as Hnil.
    destruct (Pos.to_uint p) eqn:Eu; try congruence; cbn [nonempty_digits];
      rewrite Hn; reflexivity.
  - rewrite append_cons. cbn [read_number Ascii.eqb Bool.eqb].
    rewrite (read_digits_text (Pos.to_uint p) rest Hrest).
    pose proof (Unsigned.to_uint_nonnil p) as Hnil.
    destruct (Pos.to_uint p) eqn:Eu; try congruence; cbn [nonempty_digits];
      rewrite Hn; reflexivity.
Qed.

Lemma json_induction (P : json -> Prop) :
  P JNull -> (forall b, P (JBool b)) -> (forall n, P (JNum n)) ->
  (forall s, P (JStr s)) ->
  (forall l, Forall P l -> P (JArr l)) ->
  (forall o, Forall (fun kv => P (snd kv)) o -> P (JObj o)) ->
  forall j, P j.
Proof.
  intros HN HB HZ HS HA HO.
  fix IH 1. intros [|b|n|s|l|o].
  - exact HN.
  - apply HB.
  - apply HZ.
  - apply HS.
  - apply HA. induction l as [|x l IHl]; constructor; [apply IH | exact IHl].
  - apply HO. induction o as [|[k v] o IHo]; constructor; [apply IH | exact IHo].
Qed.

Lemma stringify_head (j : json) :
  exists c r, stringify j = String c r
              /\ Ascii.eqb c "]" = false /\ Ascii.eqb c "}" = false.
Proof.
  destruct j as [|[]|n|s|l|o]; cbn [stringify]; try (do 2 eexists; repeat split; reflexivity).
  - destruct (number_text_head n) as (c & r & -> & H).
    destruct (digit_head c r H) as (_ & H1 & H2).
    exists c, r. auto.
Qed.

Lemma read_elems_text (l : list json) :
  Forall reads_back l -> l <> [] ->
  forall fuel rest,
    (elems_size l <= fuel)%nat ->
    read_elems fuel (elems_text stringify l +:+ rest) = Some (l, rest).
Proof.
  induction 1 as [|x l Hx Hl IH]; [congruence|]. intros _ fuel rest Hfuel.
  cbn [elems_size fold_right] in Hfuel. fold (elems_size l) in Hfuel.
  destruct fuel as [|f]; [lia|]. cbn [read_elems].
  destruct l as [|y l'].
  - cbn [elems_text]. rewrite append_assoc, append_cons, append_empty.
    rewrite Hx by (cbn; auto; lia). reflexivity.
  - cbn [elems_text]. rewrite append_assoc, append_cons.
    rewrite Hx by (cbn; auto; lia).
    cbn [starts_with Ascii.eqb Bool.eqb after_head].
    rewrite IH by (congruence || lia). reflexivity.
Qed.

Lemma read_members_text (o : list (string * json)) :
  Forall (fun kv => reads_back (snd kv)) o -> o <> [] ->
  forall fuel rest,
    (members_size o <= fuel)%nat ->
    read_members fuel (members_text stringify o +:+ rest) = Some (o, rest).
Proof.
  induction 1 as [|[k v] o Hv Ho IH]; [congruence|]. intros _ fuel rest Hfuel.
  cbn [members_size fold_right snd] in Hfuel. fold (members_size o) in Hfuel.
  cbn [snd] in Hv.
  destruct fuel as [|f]; [lia|]. cbn [read_members].
  assert (Hq : forall tl, starts_with dquote (quote k +:+ tl) = true)
    by (intros; reflexivity).
  destruct o as [|[k' v'] o'].
  - cbn [members_text]. rewrite append_assoc, Hq, read_string_quote.
    rewrite append_cons. cbn [starts_with Ascii.eqb Bool.eqb after_head].
    rewrite append_assoc, append_cons, append_empty.
    rewrite Hv by (cbn; auto; lia). reflexivity.
  - cbn [members_text]. rewrite append_assoc, Hq, read_string_quote.
    rewrite append_cons. cbn [starts_with Ascii.eqb Bool.eqb after_head].
    rewrite append_assoc, append_cons.
    rewrite Hv by (cbn; auto; lia).
    cbn [starts_with Ascii.eqb Bool.eqb after_head].
    rewrite IH by (congruence || lia). reflexivity.
Qed.

Lemma stringify_reads_back (j : json) : reads_back j.
Proof.
  induction j as [|b|n|s|l Hl|o Ho] using json_induction;
    intros fuel rest Hfuel Hrest; (destruct fuel as [|f]; [cbn in Hfuel; lia|]).
  - reflexivity.
  - destruct b; reflexivity.
  - cbn [stringify].
    destruct (number_text_head n) as (c & r & E & H).
    destruct (digit_head c (r +:+ rest) H) as (Hs & _).
    rewrite read_value_plain by (rewrite E, append_cons; exact Hs).
    rewrite read_number_text by assumption. reflexivity.
  - cbn [stringify read_value].
    change (starts_with "n" (quote s +:+ rest)) with false.
    change (starts_with "t" (quote s +:+ rest)) with false.
    change (starts_with "f" (quote s +:+ rest)) with false.
    change (starts_with dquote (quote s +:+ rest)) with true.
    cbv iota. rewrite read_string_quote. reflexivity.
  - cbn [stringify size] in *. fold (elems_size l) in Hfuel.
    rewrite append_cons. cbn [read_value starts_with Ascii.eqb Bool.eqb after_head].
    destruct l as [|x l'].
    + reflexivity.
    + assert (Hh : starts_with "]" (elems_text stringify (x :: l') +:+ rest) = false).
      { destruct (stringify_head x) as (c & r & E & H1 & _).
        destruct l'; cbn [elems_text]; rewrite E, !append_cons; exact H1. }
      rewrite Hh. rewrite read_elems_text by (auto; congruence || lia). reflexivity.
  - cbn [stringify size] in *. fold (members_size o) in Hfuel.
    rewrite append_cons. cbn [read_value starts_with Ascii.eqb Bool.eqb after_head].
    destruct o as [|[k v] o'].
    + reflexivity.
    + assert (Hh : starts_with "}" (members_text stringify ((k, v) :: o') +:+ rest) = false).
      { destruct o' as [|[] ?]; reflexivity. }
      rewrite Hh. rewrite read_members_text by (auto; congruence || lia). reflexivity.
Qed.

Lemma quote_length (s : string) : (2 <= String.length (quote s))%nat.
Proof. unfold quote. cbn [String.length]. rewrite length_append. cbn. lia. Qed.

Lemma elems_size_le_length (l : list json) :
  Forall (fun j => size j <= String.length (stringify j))%nat l ->
  (elems_size l <= String.length (elems_text stringify l))%nat.
Proof.
  induction 1 as [|x l Hx Hl IH]; [cbn; lia|].
  cbn [elems_size fold_right]. fold (elems_size l).
  destruct l as [|y l'].
  - cbn [elems_text elems_size fold_right]. rewrite length_append.
    cbn [String.length]. lia.
  - change (elems_text stringify (x :: y :: l'))
      with (stringify x +:+ String "," (elems_text stringify (y :: l'))).
    rewrite length_append. cbn [String.length]. lia.
Qed.

Lemma members_size_le_length (o : list (string * json)) :
  Forall (fun kv => size (snd kv) <= String.length (stringify (snd kv)))%nat o ->
  (members_size o <= String.length (members_text stringify o))%nat.
Proof.
  induction 1 as [|[k v] o Hv Ho IH]; [cbn; lia|].
  cbn [snd] in Hv. cbn [members_size fold_right snd]. fold (members_size o).
  destruct o as [|[k' v'] o'].
  - cbn [members_text members_size fold_right]. rewrite length_append.
    cbn [String.length]. rewrite length_append. cbn [String.length]. lia.
  - change (members_text stringify ((k, v) :: (k', v') :: o'))
      with (quote k +:+ String ":" (stringify v +:+
              String "," (members_text stringify ((k', v') :: o')))).
    rewrite length_append.
    cbn [String.length]. rewrite length_append. cbn [String.length]. lia.
Qed.

Lemma size_le_length (j : json) : (size j <= String.length (stringify j))%nat.
Proof.
  induction j as [|b|n|s|l Hl|o Ho] using json_induction.
  - cbn. lia.
  - destruct b; cbn; lia.
  - cbn [size stringify]. destruct (number_text_head n) as (c & r & -> & _). cbn. lia.
  - cbn [size stringify]. pose proof (quote_length s). lia.
  - cbn [size stringify String.length]. apply le_n_S.
    apply (elems_size_le_length l Hl).
  - cbn [size stringify String.length]. apply le_n_S.
    apply (members_size_le_length o Ho).
Qed.

Lemma append_empty_r (s : string) : s +:+ "" = s.
Proof. induction s as [|c s IH]; [reflexivity|]. rewrite append_cons. now rewrite IH. Qed.

Theorem parse_stringify (j : json) : parse (stringify j) = Some j.
Proof.
  unfold parse.
  pose proof (stringify_reads_back j (S (String.length (stringify j))) "") as H.
  rewrite append_empty_r in H. rewrite H; [reflexivity| |exact I].
  pose proof (size_le_length j). lia.
Qed.

End JSONFacts.

(* ===================================================================== *)
(** ** Reasoning about computations *)
(* ===================================================================== *)

Section Monad.
Context {A B : Type}.
Implicit Types (m : M A) (k : A -> M B).

Lemma bind_ok_inv m k w b w' :
  bind m k w = (Ok b, w') ->
  exists a w1, m w = (Ok a, w1) /\ k a w1 = (Ok b, w').
Proof.
  unfold bind. destruct (m w) as [[a|e] w1]; [eauto | discriminate].
Qed.

Lemma bind_throw_inv m k w e w' :
  bind m k w = (Throw e, w') ->
  m w = (Throw e, w') \/
  exists a w1, m w = (Ok a, w1) /\ k a w1 = (Throw e, w').
Proof.
  unfold bind. destruct (m w) as [[a|e0] w1]; [eauto | intros [= -> ->]; auto].
Qed.

Lemma bind_ok m k w a w1 :
  m w = (Ok a, w1) -> bind m k w = k a w1.
Proof. unfold bind. now intros ->. Qed.

Lemma bind_throw m k w e w1 :
  m w = (Throw e, w1) -> bind m k w = (Throw e, w1).
Proof. unfold bind. now intros ->. Qed.

Lemma try_catch_rethrow m w :
  try_catch m (fun error => throw error) w = m w.
Proof. unfold try_catch, throw. now destruct (m w) as [[a|e] w1]. Qed.

Lemma try_catch_ok m (h : exn -> M A) w a w1 :
  m w = (Ok a, w1) -> try_catch m h w = (Ok a, w1).
Proof. unfold try_catch. now intros ->. Qed.

Lemma try_catch_throw m (h : exn -> M A) w e w1 :
  m w = (Throw e, w1) -> try_catch m h w = h e w1.
Proof. unfold try_catch. now intros ->. Qed.

Lemma preserves_ret P (a : A) : preserves P (ret a).
Proof. intros w r w' HP [= <- <-]. exact HP. Qed.

Lemma preserves_throw P (e : exn) : preserves P (@throw A e).
Proof. intros w r w' HP [= <- <-]. exact HP. Qed.

Lemma preserves_bind P m k :
  preserves P m -> (forall a, preserves P (k a)) -> preserves P (bind m k).
Proof.
  intros Hm Hk w r w' HP. unfold bind.
  destruct (m w) as [[a|e] w1] eqn:E.
  - apply (Hk a). exact (Hm _ _ _ HP E).
  - intros [= <- <-]. exact (Hm _ _ _ HP E).
Qed.

Lemma preserves_try_catch P m (h : exn -> M A) :
  preserves P m -> (forall e, preserves P (h e)) ->
  preserves P (try_catch m h).
Proof.
  intros Hm Hh w r w' HP. unfold try_catch.
  destruct (m w) as [[a|e] w1] eqn:E.
  - intros [= <- <-]. exact (Hm _ _ _ HP E).
  - apply (Hh e). exact (Hm _ _ _ HP E).
Qed.

Lemma returns_ret (Q : A -> Prop) (a : A) : Q a -> returns (ret a) Q.
Proof. intros HQ w. exists a, w. auto. Qed.

Lemma returns_bind m k (Q : A -> Prop) (R : B -> Prop) :
  returns m Q -> (forall a, Q a -> returns (k a) R) -> returns (bind m k) R.
Proof.
  intros Hm Hk w. destruct (Hm w) as (a & w1 & E & HQ).
  unfold bind. rewrite E. apply (Hk a HQ).
Qed.

(** A [try] whose body establishes [Q] when it returns, and whose
    handler always returns with [Q], always returns with [Q]. *)
Lemma returns_try_catch m (h : exn -> M A) (Q : A -> Prop) :
  ensures m (fun a _ => Q a) -> (forall e, returns (h e) Q) ->
  returns (try_catch m h) Q.
Proof.
  intros Hm Hh w. unfold try_catch.
  destruct (m w) as [[a|e] w1] eqn:E.
  - exists a, w1. split; [reflexivity | exact (Hm _ _ _ E)].
  - apply (Hh e).
Qed.

Lemma returns_try_catch_body m (h : exn -> M A) (Q : A -> Prop) :
  returns m Q -> returns (try_catch m h) Q.
Proof.
  intros Hm w. destruct (Hm w) as (a & w1 & E & HQ).
  exists a, w1. unfold try_catch. rewrite E. auto.
Qed.

(** Whatever [m] does first, what [bind m k] returns is returned by
    some [k a]. *)
Lemma ensures_bind m k (R : B -> World -> Prop) :
  (forall a, ensures (k a) R) -> ensures (bind m k) R.
Proof.
  intros Hk w b w' E. apply bind_ok_inv in E as (a & w1 & _ & E).
  exact (Hk a _ _ _ E).
Qed.

Lemma ensures_ret (Q : A -> World -> Prop) (a : A) :
  (forall w, Q a w) -> ensures (ret a) Q.
Proof. intros HQ w a' w' [= <- <-]. apply HQ. Qed.
End Monad.

Lemma returns_weaken {A} (m : M A) (Q R : A -> Prop) :
  returns m Q -> (forall a, Q a -> R a) -> returns m R.
Proof.
  intros Hm HQR w. destruct (Hm w) as (a & w' & E & HQ). eauto.
Qed.

Lemma Date_now_returns : returns Date_now (fun _ => True).
Proof.
  intros w. unfold Date_now. destruct (clock w); eauto.
Qed.

Lemma Math_random_returns : returns Math_random_toString36 (fun _ => True).
Proof.
  intros w. unfold Math_random_toString36. destruct (random w); eauto.
Qed.

(* ===================================================================== *)
(** ** The store *)
(* ===================================================================== *)

Module StoreFacts.
Import SQL SQLiteAgentMemory StoreNotions.

(** *** What each statement leaves alone *)

Section Frames.
Context (P : World -> Prop).

Lemma preserves_driver : ignores_faults P -> preserves P driver.
Proof.
  intros HP w r w' Hw. unfold driver.
  destruct (faults w) as [|[msg|] rest]; intros [= <- <-]; auto.
Qed.

Lemma preserves_Date_now : ignores_clock P -> preserves P Date_now.
Proof.
  intros HP w r w' Hw. unfold Date_now.
  destruct (clock w); intros [= <- <-]; auto.
Qed.

Lemma preserves_CURRENT_TIMESTAMP :
  ignores_clock P -> preserves P CURRENT_TIMESTAMP.
Proof.
  intros HP. apply preserves_bind; [now apply preserves_Date_now|].
  intros t. apply preserves_ret.
Qed.

Lemma preserves_Math_random :
  ignores_random P -> preserves P Math_random_toString36.
Proof.
  intros HP w r w' Hw. unfold Math_random_toString36.
  destruct (random w); intros [= <- <-]; auto.
Qed.

Lemma preserves_stateCache_set key state :
  ignores_cache P -> preserves P (stateCache_set key state).
Proof. intros HP w r w' Hw [= <- <-]. apply HP, Hw. Qed.

Lemma preserves_create_agent_memories :
  ignores_faults P -> ignores_new_memories P ->
  preserves P create_agent_memories.
Proof.
  intros HF HP. apply preserves_bind; [now apply preserves_driver|].
  intros _ w r w' Hw.
  destruct (agent_memories w) eqn:E; intros [= <- <-]; auto.
Qed.

Lemma preserves_create_agent_messages :
  ignores_faults P -> ignores_new_messages P ->
  preserves P create_agent_messages.
Proof.
  intros HF HP. apply preserves_bind; [now apply preserves_driver|].
  intros _ w r w' Hw.
  destruct (agent_messages w) eqn:E; intros [= <- <-]; auto.
Qed.

Lemma preserves_create_agent_schema :
  ignores_faults P -> ignores_schema P -> preserves P create_agent_schema.
Proof.
  intros HF HP. apply preserves_bind; [now apply preserves_driver|].
  intros _ w r w' Hw.
  destruct (agent_schema w) eqn:E; intros [= <- <-]; auto.
Qed.

Lemma preserves_insert_or_ignore_schema key value type :
  ignores_faults P -> ignores_schema P ->
  preserves P (insert_or_ignore_schema key value type).
Proof.
  intros HF HP. apply preserves_bind; [now apply preserves_driver|].
  intros _ w r w' Hw.
  destruct (agent_schema w) as [rows|] eqn:E; [|intros [= <- <-]; auto].
  destruct (existsb _ rows); intros [= <- <-]; auto.
Qed.

Lemma preserves_seed_schema items :
  ignores_faults P -> ignores_schema P -> preserves P (seed_schema items).
Proof.
  intros HF HP. induction items as [|item rest IH]; [apply preserves_ret|].
  cbn [seed_schema]. apply preserves_bind; [|intros _; exact IH].
  apply preserves_try_catch;
    [now apply preserves_insert_or_ignore_schema|].
  intros e. apply preserves_ret.
Qed.

Lemma preserves_initialize :
  ignores_faults P -> ignores_schema P -> ignores_opening P ->
  ignores_new_memories P -> ignores_new_messages P ->
  preserves P initialize.
Proof.
  intros HF HS HO HM HG. unfold initialize.
  apply preserves_try_catch; [|intros e; apply preserves_throw].
  apply preserves_bind; [intros w r w' Hw [= <- <-]; auto|]. intros _.
  apply preserves_bind; [now apply preserves_create_agent_memories|].
  intros _.
  apply preserves_bind; [now apply preserves_create_agent_messages|].
  intros _.
  apply preserves_bind; [now apply preserves_create_agent_schema|].
  intros _. now apply preserves_seed_schema.
Qed.

Lemma preserves_ensure_initialized :
  ignores_faults P -> ignores_schema P -> ignores_opening P ->
  ignores_new_memories P -> ignores_new_messages P ->
  preserves P ensure_initialized.
Proof.
  intros HF HS HO HM HG w r w' Hw. unfold ensure_initialized.
  destruct (db_open w); [intros [= <- <-]; exact Hw|].
  now apply preserves_initialize.
Qed.

Lemma preserves_insert_or_replace_memory sid cid data :
  ignores_faults P -> ignores_clock P -> ignores_memories P ->
  preserves P (insert_or_replace_memory sid cid data).
Proof.
  intros HF HC HM. apply preserves_bind; [now apply preserves_driver|].
  intros _ w r w' Hw.
  destruct (agent_memories w) as [rows|]; [|intros [= <- <-]; auto].
  destruct sid as [sid|]; [|intros [= <- <-]; auto].
  destruct (CURRENT_TIMESTAMP w) as [[now|e] w1] eqn:E;
    intros [= <- <-];
    pose proof (preserves_CURRENT_TIMESTAMP HC _ _ _ Hw E); auto.
Qed.

Lemma preserves_insert_or_replace_message sid mid role content :
  ignores_faults P -> ignores_clock P -> ignores_messages P ->
  preserves P (insert_or_replace_message sid mid role content).
Proof.
  intros HF HC HM. apply preserves_bind; [now apply preserves_driver|].
  intros _ w r w' Hw.
  destruct (agent_messages w) as [rows|]; [|intros [= <- <-]; auto].
  destruct sid as [sid|]; [|intros [= <- <-]; auto].
  destruct content as [content|]; [|intros [= <- <-]; auto].
  destruct (CURRENT_TIMESTAMP w) as [[now|e] w1] eqn:E;
    intros [= <- <-];
    pose proof (preserves_CURRENT_TIMESTAMP HC _ _ _ Hw E); auto.
Qed.
End Frames.

(** The closure conditions above hold by unfolding for a predicate that
    reads fields the update does not write. *)
Ltac frame :=
  match goal with
  | |- ignores_faults _ => intros ? ? H; exact H
  | |- ignores_clock _ => intros ? ? H; exact H
  | |- ignores_random _ => intros ? ? H; exact H
  | |- ignores_schema _ => intros ? ? H; exact H
  | |- ignores_cache _ => intros ? ? H; exact H
  | |- ignores_memories _ => intros ? ? H; exact H
  | |- ignores_messages _ => intros ? ? H; exact H
  | |- ignores_opening _ => intros ? H; exact H
  | |- ignores_new_memories _ => intros ? ? H; exact H
  | |- ignores_new_messages _ => intros ? ? H; exact H
  end.

(** *** What a statement that succeeds has done *)

Lemma driver_ok_inv w w' :
  driver w = (Ok tt, w') -> exists f, w' = set_faults f w.
Proof.
  unfold driver. destruct (faults w) as [|[msg|] rest] eqn:E; intros [= <-].
  - exists []. destruct w; unfold set_faults, set_clock, set_random in *; cbn in *; subst; reflexivity.
  - eauto.
Qed.

Lemma CURRENT_TIMESTAMP_inv w r w' :
  CURRENT_TIMESTAMP w = (r, w') ->
  exists now c, r = Ok now /\ w' = set_clock c w.
Proof.
  unfold CURRENT_TIMESTAMP, bind, Date_now, ret.
  destruct (clock w) as [|t rest] eqn:E; intros [= <- <-].
  - exists (0 / 1000), []. split; [reflexivity|]. destruct w; unfold set_faults, set_clock, set_random in *; cbn in *; subst; reflexivity.
  - eauto.
Qed.

Lemma insert_or_replace_memory_ok_inv sid cid data w w' :
  insert_or_replace_memory sid cid data w = (Ok tt, w') ->
  exists sid' rows now,
    sid = Some sid'
    /\ agent_memories w' =
       Some (List.filter (fun r => negb (same_checkpoint sid' cid r)) rows
             ++ [mkMemoryRow sid' cid data now])%list.
Proof.
  intros H. apply bind_ok_inv in H as ([] & w1 & _ & H).
  destruct (agent_memories w1) as [rows|]; [|discriminate].
  destruct sid as [sid'|]; [|discriminate].
  destruct (CURRENT_TIMESTAMP w1) as [r w2] eqn:E.
  apply CURRENT_TIMESTAMP_inv in E as (now & c & -> & ->).
  injection H as <-. exists sid', rows, now. auto.
Qed.

Lemma insert_or_replace_message_ok_inv sid mid role content w w' :
  insert_or_replace_message sid mid role content w = (Ok tt, w') ->
  exists sid' content' rows now,
    sid = Some sid' /\ content = Some content'
    /\ agent_messages w' =
       Some (List.filter (fun r => negb (same_message sid' mid r)) rows
             ++ [mkMessageRow sid' mid role content' now])%list.
Proof.
  intros H. apply bind_ok_inv in H as ([] & w1 & _ & H).
  destruct (agent_messages w1) as [rows|]; [|discriminate].
  destruct sid as [sid'|]; [|discriminate].
  destruct content as [content'|]; [|discriminate].
  destruct (CURRENT_TIMESTAMP w1) as [r w2] eqn:E.
  apply CURRENT_TIMESTAMP_inv in E as (now & c & -> & ->).
  injection H as <-. exists sid', content', rows, now. auto.
Qed.

(** Once [initialize] has returned, [this.db] is set. *)
Lemma ensure_initialized_opens w w' :
  ensure_initialized w = (Ok tt, w') -> db_open w' = true.
Proof.
  unfold ensure_initialized. destruct (db_open w) eqn:E.
  - now intros [= <-].
  - unfold initialize. rewrite try_catch_rethrow. intros H.
    apply bind_ok_inv in H as ([] & w1 & [= <-] & H).
    revert H. apply preserves_bind with (P := fun w => db_open w = true);
      [apply preserves_create_agent_memories; frame| |reflexivity].
    intros _. apply preserves_bind;
      [apply preserves_create_agent_messages; frame|].
    intros _. apply preserves_bind;
      [apply preserves_create_agent_schema; frame|].
    intros _. apply preserves_seed_schema; frame.
Qed.

Lemma ensure_initialized_open w :
  db_open w = true -> ensure_initialized w = (Ok tt, w).
Proof. unfold ensure_initialized. now intros ->. Qed.

Lemma generated_id_inv w cid w' :
  (let* now := Date_now in
   let* rnd := Math_random_toString36 in
   ret ("ckpt_" +:+ decimal now +:+ "_" +:+ substring_js 2 15 rnd)) w
  = (Ok cid, w') ->
  cid = generated_id (hd 0 (clock w)) (hd "0" (random w))
  /\ exists c r, w' = set_random r (set_clock c w).
Proof.
  unfold bind, Date_now, Math_random_toString36, ret.
  destruct (clock w) as [|t c] eqn:Ec; cbn;
    destruct (random w) as [|x r] eqn:Er; cbn; intros [= <- <-];
    (split; [reflexivity|]).
  - exists [], []. destruct w; unfold set_faults, set_clock, set_random in *; cbn in *; subst; reflexivity.
  - exists [], r. destruct w; unfold set_faults, set_clock, set_random in *; cbn in *; subst; reflexivity.
  - exists c, []. destruct w; unfold set_faults, set_clock, set_random in *; cbn in *; subst; reflexivity.
  - eauto.
Qed.

(** What a [saveCheckpoint] that returns has done. *)
Lemma saveCheckpoint_ok_inv sessionId state checkpointId w cid w' :
  saveCheckpoint sessionId state checkpointId w = (Ok cid, w') ->
  exists wa,
    ensure_initialized w = (Ok tt, wa)
    /\ match nonempty checkpointId with
       | Some given => cid = given
       | None => cid = generated_id (hd 0 (clock wa)) (hd "0" (random wa))
       end
    /\ db_open w' = true
    /\ stateCache w' !! (js_string sessionId +:+ ":" +:+ cid) = Some state
    /\ exists sid rows now,
         sessionId = Some sid
         /\ agent_memories w' =
            Some (List.filter (fun r => negb (same_checkpoint sid cid r)) rows
                  ++ [mkMemoryRow sid cid (stringify state) now])%list.
Proof.
  unfold saveCheckpoint. intros H.
  apply bind_ok_inv in H as ([] & wa & Hinit & H).
  rewrite try_catch_rethrow in H.
  apply bind_ok_inv in H as (cid0 & wb & Hid & H).
  apply bind_ok_inv in H as ([] & wc & Hins & H).
  apply bind_ok_inv in H as ([] & wd & [= <-] & [= <- <-]).
  exists wa. split; [exact Hinit|].
  assert (Hopen : db_open wb = true /\ match nonempty checkpointId with
       | Some given => cid0 = given
       | None => cid0 = generated_id (hd 0 (clock wa)) (hd "0" (random wa))
       end).
  { pose proof (ensure_initialized_opens _ _ Hinit) as Ho.
    destruct (nonempty checkpointId) as [given|].
    - injection Hid as <- <-. auto.
    - apply generated_id_inv in Hid as (-> & c & r & ->). auto. }
  destruct Hopen as (Hopen & Hcid). split; [exact Hcid|].
  split.
  { cbn. revert Hins.
    apply preserves_insert_or_replace_memory with (P := fun w => db_open w = true);
      (frame || exact Hopen). }
  split; [cbn; apply lookup_insert_eq|].
  apply insert_or_replace_memory_ok_inv in Hins as (sid & rows & now & -> & E).
  exists sid, rows, now. cbn. auto.
Qed.

(** *** Checkpoints *)

Lemma generated_id_nonempty now rnd :
  nonempty (Some (generated_id now rnd)) = Some (generated_id now rnd).
Proof. reflexivity. Qed.

Lemma filter_replaced {A} (same : A -> bool) (rows : list A) (row : A) :
  same row = true ->
  List.filter same (List.filter (fun r => negb (same r)) rows ++ [row])
  = [row].
Proof.
  intros Hrow. rewrite List.filter_app. cbn. rewrite Hrow.
  replace (List.filter same (List.filter (fun r => negb (same r)) rows))
    with (@nil A); [reflexivity|].
  induction rows as [|r rows IH]; [reflexivity|].
  cbn. destruct (same r) eqn:E; cbn; [exact IH|]. now rewrite E.
Qed.

(** C2.  When [saveCheckpoint(sessionId, s)] returns a checkpoint id, a
    [loadCheckpoint(sessionId, id)] that follows returns [s]: at once
    from the cache, and, once the cache has been cleared, from the row
    on disk (as long as the driver runs the query). *)
Theorem saveCheckpoint_loadCheckpoint_roundtrip
    (sessionId : option string) (s : json) (w : World)
    (checkpointId : string) (w1 : World) :
  saveCheckpoint sessionId s None w = (Ok checkpointId, w1) ->
  loadCheckpoint sessionId (Some checkpointId) w1 = (Ok s, w1)
  /\ (hd None (faults w1) = None ->
      exists w2,
        (do clearCache then loadCheckpoint sessionId (Some checkpointId)) w1
        = (Ok s, w2)).
Proof.
  intros H.
  apply saveCheckpoint_ok_inv in H
    as (wa & _ & Hcid & Hopen & Hcache & sid & rows & now & -> & Hrows).
  cbn [nonempty] in Hcid. split.
  - unfold loadCheckpoint, bind.
    rewrite (ensure_initialized_open _ Hopen), try_catch_rethrow.
    rewrite Hcid, generated_id_nonempty, <- Hcid, Hcache. reflexivity.
  - intros Hfault.
    unfold clearCache, loadCheckpoint, bind.
    rewrite ensure_initialized_open by exact Hopen.
    rewrite try_catch_rethrow.
    rewrite Hcid, generated_id_nonempty, <- Hcid.
    cbn [stateCache set_stateCache]. rewrite lookup_empty.
    unfold select_checkpoint, bind, driver.
    cbn [faults set_stateCache].
    assert (Hrow : head
              (List.filter
                 (fun r => of_session (Some sid) (mem_session_id r)
                           && String.eqb (mem_checkpoint_id r) checkpointId)
                 (List.filter
                    (fun r => negb (same_checkpoint sid checkpointId r)) rows
                  ++ [mkMemoryRow sid checkpointId (stringify s) now]))
              = Some (mkMemoryRow sid checkpointId (stringify s) now)).
    { change (fun r => of_session (Some sid) (mem_session_id r)
                       && String.eqb (mem_checkpoint_id r) checkpointId)
        with (same_checkpoint sid checkpointId).
      rewrite filter_replaced; [reflexivity|].
      unfold same_checkpoint. cbn. now rewrite !String.eqb_refl. }
    destruct (faults w1) as [|[msg|] rest] eqn:Ef; [|discriminate Hfault|];
      cbn [agent_memories set_faults set_stateCache];
      rewrite Hrows, Hrow; cbn [state_data];
      rewrite JSONFacts.parse_stringify; unfold stateCache_set;
      eexists; reflexivity.
Qed.

(** *** Checkpoint ids *)

Lemma substring_length (n m : nat) (s : string) :
  (String.length (String.substring n m s) <= m)%nat.
Proof.
  revert n m. induction s as [|c s IH]; intros [|n] [|m]; cbn; try lia.
  - specialize (IH 0%nat m). lia.
  - apply IH.
  - apply IH.
Qed.

Lemma substring_alphanumeric (n m : nat) (s : string) :
  alphanumeric s = true -> alphanumeric (String.substring n m s) = true.
Proof.
  revert n m. induction s as [|c s IH]; intros [|n] [|m]; cbn; try reflexivity.
  - intros H. apply andb_true_iff in H as [-> H]. now rewrite (IH 0%nat m).
  - intros H. apply andb_true_iff in H as [_ H]. now apply IH.
  - intros H. apply andb_true_iff in H as [_ H]. now apply IH.
Qed.

Lemma base36_text_inv (rnd : string) :
  base36_text rnd = true ->
  rnd = "0" \/ exists digits,
    rnd = String "0" (String "." digits) /\ alphanumeric digits = true.
Proof.
  destruct rnd as [|c0 [|c1 digits]]; cbn; [discriminate| |].
  - destruct c0 as [[] [] [] [] [] [] [] []]; try discriminate; auto.
  - destruct c0 as [[] [] [] [] [] [] [] []]; try discriminate;
    destruct c1 as [[] [] [] [] [] [] [] []]; try discriminate; eauto.
Qed.

Lemma base36_suffix_alphanumeric (rnd : string) :
  base36_text rnd = true -> alphanumeric (substring_js 2 15 rnd) = true.
Proof.
  intros H. apply base36_text_inv in H as [-> | (digits & -> & H)];
    [reflexivity|].
  change (substring_js 2 15 (String "0" (String "." digits)))
    with (String.substring 0 13 digits).
  now apply substring_alphanumeric.
Qed.

(** C6, as the code has it.  The id that [saveCheckpoint] makes up when
    it is given none is [ckpt_], the clock reading in decimal, [_], and
    the characters 2 to 14 of [Math.random().toString(36)]: at most 13
    characters, all of them base-36 digits. *)
Theorem saveCheckpoint_generated_id
    (sessionId : option string) (state : json) (checkpointId : option string)
    (w : World) (cid : string) (w' : World) :
  nonempty checkpointId = None ->
  saveCheckpoint sessionId state checkpointId w = (Ok cid, w') ->
  let suffix := substring_js 2 15 (hd "0" (random w)) in
  cid = "ckpt_" +:+ decimal (hd 0 (clock w)) +:+ "_" +:+ suffix
  /\ (String.length suffix <= 13)%nat
  /\ (base36_text (hd "0" (random w)) = true -> alphanumeric suffix = true).
Proof.
  intros Hnone H.
  apply saveCheckpoint_ok_inv in H as (wa & Hinit & Hcid & _).
  rewrite Hnone in Hcid.
  assert (Hsame : clock wa = clock w /\ random wa = random w).
  { revert Hinit.
    apply preserves_ensure_initialized
      with (P := fun w0 => clock w0 = clock w /\ random w0 = random w);
      (frame || auto). }
  destruct Hsame as (Hc & Hr). rewrite Hc, Hr in Hcid.
  split; [exact Hcid|]. split.
  - apply substring_length.
  - apply base36_suffix_alphanumeric.
Qed.

(** *** Messages *)

(** C7.  After two [saveMessage] with the same [(sessionId, messageId)],
    the table holds exactly one row for that key, and it is the row of
    the second call. *)
Theorem saveMessage_twice
    (sessionId messageId role1 content1 role2 content2 : string)
    (w w1 w2 : World) :
  saveMessage (Some sessionId) messageId role1 (Some content1) w
    = (Ok tt, w1) ->
  saveMessage (Some sessionId) messageId role2 (Some content2) w1
    = (Ok tt, w2) ->
  exists rows now,
    agent_messages w2 = Some rows
    /\ List.filter (same_message sessionId messageId) rows
       = [mkMessageRow sessionId messageId role2 content2 now].
Proof.
  intros _ H. unfold saveMessage in H.
  apply bind_ok_inv in H as ([] & wa & _ & H).
  rewrite try_catch_rethrow in H.
  apply insert_or_replace_message_ok_inv in H
    as (sid & c & rows & now & [= <-] & [= <-] & ->).
  eexists _, now. split; [reflexivity|].
  apply filter_replaced. unfold same_message. cbn.
  now rewrite !String.eqb_refl.
Qed.

(** *** [ORDER BY] and [LIMIT] *)

Section OrderByFacts.
Context {A : Type} (before : A -> A -> bool).
Hypothesis before_total : forall a b, before a b = false -> before b a = true.
Hypothesis before_trans :
  forall a b c, before a b = true -> before b c = true -> before a c = true.

Local Abbreviation ordered := (fun a b : A => before a b = true).

Lemma place_Forall (P : A -> Prop) (x : A) (l : list A) :
  P x -> Forall P l -> Forall P (place before x l).
Proof.
  intros Hx Hl. induction Hl as [|y l Hy Hl IH]; cbn.
  - constructor; [exact Hx | constructor].
  - destruct (before x y); repeat constructor; assumption.
Qed.

Lemma place_sorted (x : A) (l : list A) :
  StronglySorted ordered l -> StronglySorted ordered (place before x l).
Proof.
  induction 1 as [|y l Hl IH Hy]; cbn.
  - repeat constructor.
  - destruct (before x y) eqn:E.
    + constructor; [now constructor|].
      constructor; [exact E|].
      eapply Forall_impl; [exact Hy|]. cbn. intros z Hz. eauto.
    + constructor; [exact IH|].
      apply place_Forall; [now apply before_total | exact Hy].
Qed.

Lemma order_by_sorted (l : list A) :
  StronglySorted ordered (order_by before l).
Proof.
  induction l as [|x l IH]; cbn; [constructor | now apply place_sorted].
Qed.
End OrderByFacts.

Lemma place_In {A} (before : A -> A -> bool) (a x : A) (l : list A) :
  In a (place before x l) <-> a = x \/ In a l.
Proof.
  induction l as [|y l IH]; cbn.
  - intuition.
  - destruct (before x y); cbn; intuition.
Qed.

Lemma order_by_In {A} (before : A -> A -> bool) (a : A) (l : list A) :
  In a (order_by before l) <-> In a l.
Proof.
  induction l as [|x l IH]; cbn; [tauto|].
  rewrite place_In, IH. intuition.
Qed.

(** The first row of a sorted table comes before every row of it. *)
Lemma order_by_head {A} (before : A -> A -> bool) (l : list A) (first : A) :
  (forall a b, before a b = false -> before b a = true) ->
  (forall a b c, before a b = true -> before b c = true -> before a c = true) ->
  head (order_by before l) = Some first ->
  In first l
  /\ forall a, In a l -> a = first \/ before first a = true.
Proof.
  intros Htotal Htrans Hhead.
  pose proof (order_by_sorted before Htotal Htrans l) as Hsorted.
  assert (Hin : forall a, In a (order_by before l) <-> In a l)
    by (intros; apply order_by_In).
  destruct (order_by before l) as [|x rest]; [discriminate|].
  injection Hhead as ->. split; [apply Hin; now left|].
  intros a Ha. apply Hin in Ha as [->|Ha]; [now left|right].
  apply StronglySorted_inv in Hsorted as [_ Hall].
  rewrite List.Forall_forall in Hall. now apply Hall.
Qed.






(** A limit that is accepted is a 64-bit integer. *)
Lemma limit_rows_ok_inv {A} (n : Z) (l found : list A) :
  limit_rows n l = Ok found ->
  found = first_rows n l /\ - 2 ^ 63 < n < 2 ^ 63.
Proof.
  unfold limit_rows.
  destruct ((- 2 ^ 63 <? n) && (n <? 2 ^ 63)) eqn:E; [|discriminate].
  intros [= <-]. apply andb_true_iff in E as (E1 & E2).
  apply Z.ltb_lt in E1, E2. auto.
Qed.



(** *** What the workflow relies on *)

Lemma saveMessage_ok_inv sessionId messageId role content w w' :
  saveMessage sessionId messageId role content w = (Ok tt, w') ->
  exists sid c rows now,
    sessionId = Some sid /\ content = Some c
    /\ agent_messages w' =
       Some (List.filter (fun r => negb (same_message sid messageId r)) rows
             ++ [mkMessageRow sid messageId role c now])%list.
Proof.
  unfold saveMessage. intros H.
  apply bind_ok_inv in H as ([] & wa & _ & H).
  rewrite try_catch_rethrow in H.
  now apply insert_or_replace_message_ok_inv in H.
Qed.

(** [saveCheckpoint] writes no message, whether it returns or throws. *)
Lemma saveCheckpoint_keeps_messages rows sessionId state checkpointId :
  preserves (fun w => agent_messages w = Some rows)
            (saveCheckpoint sessionId state checkpointId).
Proof.
  unfold saveCheckpoint.
  apply preserves_bind.
  { apply preserves_ensure_initialized; try frame.
    intros w Hnone Hsome. cbn in *. congruence. }
  intros _. apply preserves_try_catch; [|intros e; apply preserves_throw].
  apply preserves_bind.
  { destruct (nonempty checkpointId); [apply preserves_ret|].
    apply preserves_bind; [apply preserves_Date_now; frame|]. intros now.
    apply preserves_bind; [apply preserves_Math_random; frame|]. intros rnd.
    apply preserves_ret. }
  intros cid. apply preserves_bind;
    [apply preserves_insert_or_replace_memory; frame|].
  intros _. apply preserves_bind;
    [apply preserves_stateCache_set; frame|].
  intros _. apply preserves_ret.
Qed.

Lemma order_by_nil {A} (before : A -> A -> bool) : order_by before [] = [].
Proof. reflexivity. Qed.

Lemma order_by_empty {A} (before : A -> A -> bool) (l : list A) :
  head (order_by before l) = None -> l = [].
Proof.
  destruct l as [|x l]; [reflexivity|].
  change (order_by before (x :: l)) with (place before x (order_by before l)).
  destruct (order_by before l) as [|y rest]; cbn [place];
    [discriminate|].
  destruct (before x y); discriminate.
Qed.

Lemma head_limit_one {A} (l : list A) : head (first_rows 1 l) = head l.
Proof. now destruct l. Qed.

(** Past the cache, [loadCheckpoint] with no id answers [null] when the
    session has no row, and otherwise the state of a row of the session
    that no other row of it is younger than. *)
Lemma loadCheckpoint_cold_cache sessionId w s w' :
  db_open w = true ->
  stateCache w !! (sessionId +:+ ":latest") = None ->
  loadCheckpoint (Some sessionId) None w = (Ok s, w') ->
  exists rows,
    agent_memories w = Some rows
    /\ ((s = JNull
         /\ List.filter (fun r => String.eqb (mem_session_id r) sessionId) rows
            = [])
        \/ exists row,
             In row rows /\ mem_session_id row = sessionId
             /\ parse (state_data row) = Some s
             /\ forall r, In r rows -> mem_session_id r = sessionId ->
                          created_at r <= created_at row).
Proof.
  intros Hopen Hcache. unfold loadCheckpoint, bind.
  rewrite (ensure_initialized_open _ Hopen), try_catch_rethrow.
  cbn [nonempty js_string].
  change (sessionId +:+ ":" +:+ "latest") with (sessionId +:+ ":latest").
  rewrite Hcache. unfold select_latest_checkpoint, bind.
  destruct (driver w) as [[[]|e] w1] eqn:Edrv; [|discriminate].
  apply driver_ok_inv in Edrv as (f & ->). cbn [agent_memories set_faults].
  destruct (agent_memories w) as [rows|]; [|discriminate].
  rewrite head_limit_one. cbn [of_session].
  set (mine := List.filter (fun r => String.eqb (mem_session_id r) sessionId)
                 rows).
  destruct (head (order_by _ mine)) as [row|] eqn:Ehead.
  - destruct (parse (state_data row)) as [state|] eqn:Eparse;
      [|intros [=]].
    unfold stateCache_set, ret. intros [= <- <-]. exists rows. split; [reflexivity|]. right.
    apply order_by_head in Ehead as (Hin & Hmax).
    + apply filter_In in Hin as (Hin & Hsid). apply String.eqb_eq in Hsid.
      exists row. repeat split; try assumption.
      intros r Hr Hs.
      destruct (Hmax r) as [-> | Hle]; [|lia|now apply Z.leb_le in Hle].
      apply filter_In. split; [exact Hr | now apply String.eqb_eq].
    + intros a b. rewrite Z.leb_gt, Z.leb_le. lia.
    + intros a b c. rewrite !Z.leb_le. lia.
  - intros [= <- <-]. exists rows. split; [reflexivity|]. left.
    split; [reflexivity|]. now apply order_by_empty in Ehead.
Qed.

(** For a session without a checkpoint, [loadCheckpoint] with no id
    returns [null], unless the driver fails. *)
Lemma loadCheckpoint_no_checkpoint sessionId w r w' :
  no_checkpoint sessionId w ->
  loadCheckpoint (Some sessionId) None w = (r, w') ->
  (r = Ok JNull \/ exists e, r = Throw e) /\ no_checkpoint sessionId w'.
Proof.
  intros Hno. unfold loadCheckpoint, bind.
  destruct (ensure_initialized w) as [[[]|e] wa] eqn:Einit.
  2:{ intros [= <- <-]. split; [eauto|]. revert Einit.
      apply preserves_ensure_initialized; try frame; [|exact Hno].
      intros w0 Hnone (Hc & Hr). split; [exact Hc|].
      cbn. now intros rows [= <-]. }
  assert (Hwa : no_checkpoint sessionId wa).
  { revert Einit.
    apply preserves_ensure_initialized; try frame; [|exact Hno].
    intros w0 Hnone (Hc & Hr). split; [exact Hc|].
    cbn. now intros rows [= <-]. }
  rewrite try_catch_rethrow. cbn [nonempty js_string].
  destruct Hwa as (Hcache & Hrows).
  change (sessionId +:+ ":" +:+ "latest") with (sessionId +:+ ":latest").
  rewrite Hcache.
  unfold select_latest_checkpoint, bind.
  destruct (driver wa) as [[[]|e] wb] eqn:Edrv.
  2:{ intros [= <- <-]. split; [eauto|]. revert Edrv.
      apply preserves_driver; [frame | split; assumption]. }
  assert (Hwb : no_checkpoint sessionId wb).
  { revert Edrv. apply preserves_driver; [frame | split; assumption]. }
  destruct Hwb as (Hcache' & Hrows').
  destruct (agent_memories wb) as [rows|] eqn:Emem.
  - cbn [of_session]. rewrite (Hrows' rows eq_refl).
    rewrite order_by_nil. cbn. intros [= <- <-]. split; [auto|].
    split; [exact Hcache'|]. intros rows' E. apply Hrows'. congruence.
  - intros [= <- <-]. split; [eauto|]. split; [exact Hcache'|].
    intros rows' E. congruence.
Qed.

End StoreFacts.

(* ===================================================================== *)
(** ** The workflow *)
(* ===================================================================== *)

Module AgentFlowFacts.
Import AgentFlowService FlowNotions.

Lemma start_returns (state : State) (input : string) :
  returns (start state input)
    (fun s => same_identity state s /\ response s = response state
              /\ checkpointId s = checkpointId state).
Proof. apply returns_ret. repeat split. Qed.

Lemma agent_returns (g : TextGenerator) (state : State) (input : string) :
  returns (agent g state input)
    (fun s => same_identity state s /\ checkpointId s = checkpointId state).
Proof.
  unfold agent.
  eapply returns_bind with (Q := fun _ => True).
  - apply returns_try_catch; [intros w a w' _; exact I|].
    intros e. now apply returns_ret.
  - intros r _. apply returns_ret. repeat split.
Qed.

(** When the generator fails, the agent node answers with the fixed
    fallback text. *)
Lemma agent_fallback (g : TextGenerator) (state : State) (input : string) :
  always_fails g ->
  returns (agent g state input)
    (fun s => s = set_response fallback_response state).
Proof.
  intros Hg w. unfold agent, bind, try_catch.
  destruct (Hg input (mkMinimalSession (sessionId state) (subject state))
              (JObj (("role", JStr "system")
                       :: prop "content" (systemPrompt state))
                 :: messages_or_empty state) w) as (e & w' & ->).
  cbn. eauto.
Qed.

(** The memory node never throws and never touches the response. *)
Lemma memory_returns (mm : option MemoryManager) (state : State) :
  returns (memory mm state)
    (fun s => same_identity state s /\ response s = response state).
Proof.
  unfold memory. destruct mm as [mm|]; [|apply returns_ret; repeat split].
  apply returns_try_catch; [|intros e; apply returns_ret; repeat split].
  apply ensures_bind; intros now.
  apply ensures_bind; intros _.
  apply ensures_bind; intros cid.
  apply ensures_ret. intros _. repeat split.
Qed.

Lemma end_returns (state : State) :
  returns (end_ state)
    (fun r => content r = response state /\ error r = None
              /\ as_subject (agentState r) = subject state
              /\ as_name (agentState r) = name state
              /\ as_checkpointId (agentState r) = checkpointId state).
Proof.
  unfold end_.
  eapply returns_bind; [apply Date_now_returns|].
  intros now _. apply returns_ret. repeat split.
Qed.

(** The nodes of [createAgentFlow] in sequence never throw. *)
Lemma run_nodes_returns (g : TextGenerator) (mm : option MemoryManager)
    (state : State) (input : string) :
  returns (run_nodes (createAgentFlow g mm) state input)
    (fun r => error r = None
              /\ as_subject (agentState r) = subject state
              /\ as_name (agentState r) = name state).
Proof.
  unfold run_nodes, createAgentFlow; cbn [node_start node_agent node_memory node_end].
  eapply returns_bind; [apply start_returns|].
  intros s1 ((Hs1 & Hn1) & _).
  eapply returns_bind; [apply agent_returns|].
  intros s2 ((Hs2 & Hn2) & _).
  eapply returns_bind; [apply memory_returns|].
  intros s3 ((Hs3 & Hn3) & _).
  eapply returns_weaken; [apply end_returns|].
  intros r (_ & He & Hs & Hn & _). repeat split; congruence.
Qed.

Lemma run_nodes_fallback (g : TextGenerator) (mm : option MemoryManager)
    (state : State) (input : string) :
  always_fails g ->
  returns (run_nodes (createAgentFlow g mm) state input)
    (fun r => content r = Some fallback_response /\ error r = None).
Proof.
  intros Hg.
  unfold run_nodes, createAgentFlow; cbn [node_start node_agent node_memory node_end].
  eapply returns_bind; [apply start_returns|].
  intros s1 _.
  eapply returns_bind; [apply agent_fallback, Hg|].
  intros s2 ->.
  eapply returns_bind; [apply memory_returns|].
  intros s3 (_ & Hr).
  eapply returns_weaken; [apply end_returns|].
  intros r (Hc & He & _). split; [|exact He].
  rewrite Hc, Hr. reflexivity.
Qed.

Lemma _formatMessageHistory_returns (messageHistory : list HistoryMessage) :
  returns (_formatMessageHistory messageHistory) (fun _ => True).
Proof.
  induction messageHistory as [|m rest IH]; [now apply returns_ret|].
  cbn [_formatMessageHistory].
  eapply returns_bind with (Q := fun _ => True).
  - destruct (SQLiteAgentMemory.nonempty (hm_id m)); [now apply returns_ret|].
    eapply returns_bind; [apply Date_now_returns|]. intros now _.
    eapply returns_bind; [apply Math_random_returns|]. intros rnd _.
    now apply returns_ret.
  - intros id _. eapply returns_bind; [apply IH|].
    intros rest' _. now apply returns_ret.
Qed.

(** Saving the user message never throws; [Q] holds of the state it
    hands to the workflow when it holds of the state with and without
    the user message. *)
Lemma save_user_message_returns (userMessage : string)
    (tutorSession : TutorSession) (initialState : json)
    (state : State) (Q : State -> Prop) :
  Q state -> (forall l, Q (set_messages l state)) ->
  returns (save_user_message userMessage tutorSession initialState state) Q.
Proof.
  intros HQ HQ'. unfold save_user_message.
  apply returns_try_catch; [|intros e; now apply returns_ret].
  apply ensures_bind; intros now.
  apply ensures_bind; intros _.
  apply ensures_bind; intros _.
  apply ensures_ret. intros _. apply HQ'.
Qed.

Lemma loadCheckpoint_attempt_returns (sid : string) :
  returns
    (try_catch (SQLiteAgentMemory.loadCheckpoint (Some sid) None)
               (fun _ => ret JNull))
    (fun _ => True).
Proof.
  apply returns_try_catch; [intros w a w' _; exact I|].
  intros e. now apply returns_ret.
Qed.

(** C3.  Whatever the turn of a session that has no checkpoint, or
    whose checkpoint is a state of the workflow, when the text generator
    fails on every call, [executeAgentFlow] returns (it throws nothing)
    a result whose content is the fixed fallback text of the agent node.
    The store may fail in any way. *)
Theorem executeAgentFlow_generator_failure (g : TextGenerator) :
  always_fails g ->
  forall userMessage tutorSession messageHistory w,
  well_formed_checkpoint (ts_id tutorSession) w ->
  exists r w',
    executeAgentFlow g userMessage tutorSession messageHistory w = (Ok r, w')
    /\ content r = Some fallback_response.
Proof.
  intros Hg userMessage tutorSession messageHistory w _. revert w.
  change (returns (executeAgentFlow g userMessage tutorSession messageHistory)
            (fun r => content r = Some fallback_response)).
  unfold executeAgentFlow.
  apply returns_try_catch_body.
  eapply returns_bind; [apply _formatMessageHistory_returns|].
  intros formattedHistory _.
  eapply returns_bind; [apply loadCheckpoint_attempt_returns|].
  intros initialState _.
  eapply returns_bind;
    [apply save_user_message_returns with (Q := fun _ => True); auto|].
  intros state _.
  unfold execute. apply returns_try_catch_body.
  eapply returns_weaken; [apply run_nodes_fallback, Hg|].
  now intros r (Hc & _).
Qed.

(** *** Exceptions of the stages *)

Lemma stage_throws_run_nodes nodes state input w e w' :
  stage_throws nodes state input w e w' ->
  run_nodes nodes state input w = (Throw e, w').
Proof.
  unfold run_nodes, bind.
  intros [H | s1 w1 H1 H | s1 w1 s2 w2 H1 H2 H
          | s1 w1 s2 w2 s3 w3 H1 H2 H3 H];
    rewrite ?H1, ?H2, ?H3, ?H; reflexivity.
Qed.

(** C4.  Whatever the nodes, the state and the input, [execute] returns
    a result and throws nothing; and when a stage throws, that result
    carries the message of the exception as [error], the fixed apology
    as content, and the subject and the name of the input state. *)
Theorem execute_never_throws
    (nodes : Nodes) (state : State) (input : string) (w : World) :
  exists r w',
    execute nodes state input w = (Ok r, w')
    /\ forall e w1,
         stage_throws nodes state input w e w1 ->
         content r = Some workflow_apology
         /\ error r = Some (message e)
         /\ agentState r = mkAgentState (subject state) (name state) None.
Proof.
  unfold execute, try_catch.
  destruct (run_nodes nodes state input w) as [[r|e] w1] eqn:E.
  - exists r, w1. split; [reflexivity|].
    intros e w2 H. apply stage_throws_run_nodes in H. congruence.
  - destruct (Date_now_returns w1) as (now & w2 & Hnow & _).
    unfold bind. rewrite Hnow. cbn.
    eexists _, _. split; [reflexivity|].
    intros e' w3 H. apply stage_throws_run_nodes in H.
    assert (e' = e) as -> by congruence. cbn. auto.
Qed.

(** *** The memory node when persistence fails *)

(** C10.  When [saveMessage] throws, or [saveMessage] returns and
    [saveCheckpoint] throws, the memory node returns the very state it
    was given, with its [checkpointId] and its [messages] as they were;
    in the second case the row of the assistant message is in the table
    all the same. *)
Theorem memory_persistence_failure
    (state : State) (w : World) (now : Z) (w0 w' : World) :
  Date_now w = (Ok now, w0) ->
  let messageId := "msg_" +:+ decimal now in
  let saved :=
    state_to_json
      (set_messages (with_assistant_message state messageId) state) in
  (exists e,
     SQLiteAgentMemory.saveMessage
       (sessionId state) messageId "assistant" (response state) w0
     = (Throw e, w'))
  \/ (exists w1 e,
        SQLiteAgentMemory.saveMessage
          (sessionId state) messageId "assistant" (response state) w0
        = (Ok tt, w1)
        /\ SQLiteAgentMemory.saveCheckpoint (sessionId state) saved None w1
           = (Throw e, w')) ->
  memory (Some sqliteMemoryService) state w = (Ok state, w')
  /\ forall w1,
       SQLiteAgentMemory.saveMessage
         (sessionId state) messageId "assistant" (response state) w0
       = (Ok tt, w1) ->
       exists sid c rows ts,
         sessionId state = Some sid /\ response state = Some c
         /\ agent_messages w' = Some rows
         /\ In (mkMessageRow sid messageId "assistant" c ts) rows.
Proof.
  intros Hnow messageId saved Hfail.
  unfold memory, try_catch, bind. rewrite Hnow.
  cbn [sqliteMemoryService mm_saveMessage mm_saveCheckpoint].
  fold messageId. fold saved.
  destruct Hfail as [(e & Hmsg) | (w1 & e & Hmsg & Hckpt)].
  - rewrite Hmsg. split; [reflexivity|]. intros w1 [=].
  - rewrite Hmsg, Hckpt. split; [reflexivity|].
    intros w1' [= <-].
    apply StoreFacts.saveMessage_ok_inv in Hmsg
      as (sid & c & rows & ts & Hsid & Hc & Hrows).
    exists sid, c. eexists _, ts.
    repeat split; [exact Hsid | exact Hc | |].
    + exact (StoreFacts.saveCheckpoint_keeps_messages _ _ _ _ _ _ _ Hrows Hckpt).
    + apply in_or_app. right. left. reflexivity.
Qed.

(** *** The subject of a fresh session *)

Lemma _formatMessageHistory_preserves (P : World -> Prop)
    (messageHistory : list HistoryMessage) :
  StoreNotions.ignores_clock P -> StoreNotions.ignores_random P ->
  preserves P (_formatMessageHistory messageHistory).
Proof.
  intros HC HR.
  induction messageHistory as [|m rest IH]; [apply preserves_ret|].
  cbn [_formatMessageHistory]. apply preserves_bind.
  - destruct (SQLiteAgentMemory.nonempty (hm_id m)); [apply preserves_ret|].
    apply preserves_bind; [now apply StoreFacts.preserves_Date_now|].
    intros now. apply preserves_bind;
      [now apply StoreFacts.preserves_Math_random|].
    intros rnd. apply preserves_ret.
  - intros id. apply preserves_bind; [exact IH|].
    intros rest'. apply preserves_ret.
Qed.

(** C9, as the code has it.  For a session without a checkpoint, the
    subject of the result is the subject of the tutor session when it
    has one that is not empty, and ["various subjects"] otherwise. *)
Theorem executeAgentFlow_fresh_subject
    (g : TextGenerator) (userMessage : string) (tutorSession : TutorSession)
    (messageHistory : list HistoryMessage) (w : World) :
  StoreNotions.no_checkpoint (ts_id tutorSession) w ->
  exists r w',
    executeAgentFlow g userMessage tutorSession messageHistory w = (Ok r, w')
    /\ as_subject (agentState r)
       = Some (PromptTemplateService.or_else
                 (ts_subject tutorSession) "various subjects").
Proof.
  intros Hno.
  unfold executeAgentFlow.
  destruct (_formatMessageHistory_returns messageHistory w)
    as (formattedHistory & w1 & Hfmt & _).
  assert (Hno1 : StoreNotions.no_checkpoint (ts_id tutorSession) w1).
  { revert Hfmt. apply _formatMessageHistory_preserves;
      (StoreFacts.frame || exact Hno). }
  unfold try_catch at 1. unfold bind at 1. rewrite Hfmt.
  unfold bind at 1. unfold try_catch at 1.
  destruct (SQLiteAgentMemory.loadCheckpoint (Some (ts_id tutorSession)) None w1)
    as [loaded w2] eqn:Eload.
  assert (Hret : returns
            (let* state :=
               save_user_message userMessage tutorSession JNull
                 (fresh_state tutorSession formattedHistory) in
             execute (createAgentFlow g (Some sqliteMemoryService))
               state userMessage)
            (fun r => as_subject (agentState r)
                      = Some (PromptTemplateService.or_else
                                (ts_subject tutorSession) "various subjects"))).
  { eapply returns_bind;
      [apply save_user_message_returns
         with (Q := fun s => subject s
                            = Some (PromptTemplateService.or_else
                                      (ts_subject tutorSession)
                                      "various subjects")); reflexivity|].
    intros state Hs. unfold execute. apply returns_try_catch_body.
    eapply returns_weaken; [apply run_nodes_returns|].
    intros r (_ & Hsub & _). congruence. }
  destruct (StoreFacts.loadCheckpoint_no_checkpoint _ _ _ _ Hno1 Eload)
    as ([-> | (e & ->)] & _); cbn [ret truthy].
  - destruct (Hret w2) as (r & w' & -> & Hr). eauto.
  - destruct (Hret w2) as (r & w' & -> & Hr). eauto.
Qed.

End AgentFlowFacts.

(* ===================================================================== *)
(** ** Runs on the sample worlds *)
(* ===================================================================== *)

Module SampleFacts.
Import SQL SQLiteAgentMemory AgentFlowService StoreNotions FlowNotions Samples
       StoreFacts AgentFlowFacts.

(** C1, at a run the code can make.  After a checkpoint [A] has been
    loaded as the latest one, a later checkpoint [B] is saved; the next
    [loadCheckpoint] without an id still answers [A], the state the cache
    holds under [s1:latest], while the latest row on disk is [B]. *)
Theorem loadCheckpoint_latest_is_stale :
  exists w',
    save_load_save_load steady_world = (Ok (state_A, state_A), w')
    /\ state_A <> state_B
    /\ exists row,
         fst (select_latest_checkpoint (Some "s1") w') = Ok (Some row)
         /\ parse (state_data row) = Some state_B.
Proof.
  eexists. split; [vm_compute; reflexivity|].
  split; [discriminate|].
  eexists. split; vm_compute; reflexivity.
Qed.

(** The same defect in the workflow: the third turn of a session starts
    from the state the second turn loaded, so the checkpoint it saves
    misses the answer of the second turn. *)
Lemma third_turn_loses_an_answer :
  exists row,
    fst (select_latest_checkpoint (Some "s1") after_three_turns)
    = Ok (Some row)
    /\ message_contents (state_data row)
       = [Some "Explain"; Some "echo Explain"; Some "More"; Some "Third";
          Some "echo Third"].
Proof. eexists. split; vm_compute; reflexivity. Qed.

(** C5, at a run the code can make.  When the clock answers the same
    millisecond to the two [Date.now()] of a turn, the user message and
    the assistant message get the same id, and the second save replaces
    the row of the first: the turn leaves one row, the assistant's. *)
Theorem executeAgentFlow_message_ids_collide :
  exists r w',
    executeAgentFlow failing_generator "Explain" physics_session []
      same_millisecond_world = (Ok r, w')
    /\ agent_messages w'
       = Some [mkMessageRow "s1" "msg_1700000000000" "assistant"
                 fallback_response 1700000000].
Proof.
  eexists _, _. split; vm_compute; reflexivity.
Qed.

Lemma alphanumeric_tail_bound (prefix suffix : string) :
  alphanumeric suffix = true ->
  (String.length suffix <= alphanumeric_tail (prefix +:+ suffix))%nat.
Proof.
  intros Hs. induction prefix as [|c prefix IH].
  - rewrite JSONFacts.append_empty. destruct suffix as [|c r]; [cbn; lia|].
    cbn [alphanumeric_tail]. now rewrite Hs.
  - rewrite JSONFacts.append_cons. cbn [alphanumeric_tail].
    destruct (alphanumeric (String c (prefix +:+ suffix))); [|exact IH].
    cbn [String.length]. rewrite JSONFacts.length_append. lia.
Qed.

(** C6 fails as stated: when [Math.random()] answers one half, the id is
    [ckpt_1700000000000_i], which does not end with 8 letters or digits,
    however it is split. *)
Lemma saveCheckpoint_short_suffix :
  exists cid w',
    saveCheckpoint (Some "s1") state_A None half_world = (Ok cid, w')
    /\ cid = "ckpt_1700000000000_i"
    /\ ~ exists prefix suffix,
           cid = prefix +:+ suffix
           /\ (8 <= String.length suffix)%nat
           /\ alphanumeric suffix = true.
Proof.
  eexists _, _. split; [vm_compute; reflexivity|]. split; [reflexivity|].
  intros (prefix & suffix & E & Hlen & Halnum).
  pose proof (alphanumeric_tail_bound prefix suffix Halnum) as H.
  rewrite <- E in H.
  change (alphanumeric_tail "ckpt_1700000000000_i") with 1%nat in H. lia.
Qed.

(** C9 fails as stated: the subject of the session is the empty string,
    it has no checkpoint, and the subject of the result is not that
    string but ["various subjects"]. *)
Lemma executeAgentFlow_empty_subject :
  no_checkpoint (ts_id untitled_session) steady_world
  /\ ts_subject untitled_session = Some ""
  /\ exists r w',
       executeAgentFlow failing_generator "Explain" untitled_session []
         steady_world = (Ok r, w')
       /\ as_subject (agentState r) = Some "various subjects"
       /\ as_subject (agentState r) <> ts_subject untitled_session.
Proof.
  split; [|split; [reflexivity|]].
  - split; [reflexivity|]. intros rows [= <-]. reflexivity.
  - eexists _, _. split; [vm_compute; reflexivity|].
    split; [reflexivity | discriminate].
Qed.

(** *** The theorems above, at sample worlds *)

Lemma saveCheckpoint_loadCheckpoint_roundtrip_witness :
  let w1 := snd (saveCheckpoint (Some "s1") state_B None steady_world) in
  saveCheckpoint (Some "s1") state_B None steady_world
  = (Ok "ckpt_1700000000000_4fzyo82mvyr", w1)
  /\ loadCheckpoint (Some "s1") (Some "ckpt_1700000000000_4fzyo82mvyr") w1
     = (Ok state_B, w1)
  /\ (hd None (faults w1) = None ->
      exists w2,
        (do clearCache then
         loadCheckpoint (Some "s1") (Some "ckpt_1700000000000_4fzyo82mvyr")) w1
        = (Ok state_B, w2)).
Proof.
  intros w1.
  assert (H : saveCheckpoint (Some "s1") state_B None steady_world
              = (Ok "ckpt_1700000000000_4fzyo82mvyr", w1))
    by (vm_compute; reflexivity).
  split; [exact H|].
  exact (saveCheckpoint_loadCheckpoint_roundtrip
           (Some "s1") state_B steady_world
           "ckpt_1700000000000_4fzyo82mvyr" w1 H).
Defined.

Lemma execute_never_throws_witness :
  exists r w',
    execute broken_nodes (fresh_state physics_session []) "Explain"
      steady_world = (Ok r, w')
    /\ content r = Some workflow_apology
    /\ error r = Some "agent node failed"
    /\ agentState r = mkAgentState (Some "physics") (Some "AI Tutor") None.
Proof.
  destruct (execute_never_throws broken_nodes
              (fresh_state physics_session []) "Explain" steady_world)
    as (r & w' & E & H).
  exists r, w'. split; [exact E|].
  apply (H (Error "agent node failed") steady_world).
  eapply agent_throws; reflexivity.
Defined.

Lemma executeAgentFlow_generator_failure_witness :
  always_fails failing_generator
  /\ well_formed_checkpoint (ts_id physics_session) resumed_world
  /\ exists r w',
       executeAgentFlow failing_generator "More" physics_session []
         resumed_world = (Ok r, w')
       /\ content r = Some fallback_response.
Proof.
  assert (H : always_fails failing_generator).
  { intros input session history w. eexists _, _. reflexivity. }
  assert (Hw : well_formed_checkpoint (ts_id physics_session) resumed_world).
  { split.
    - intros j Hj. discriminate Hj.
    - intros rows row [= <-] [<-|[]] _.
      exists state_B. split; reflexivity. }
  split; [exact H|]. split; [exact Hw|].
  exact (executeAgentFlow_generator_failure failing_generator H
           "More" physics_session [] resumed_world Hw).
Defined.

Lemma saveCheckpoint_generated_id_witness :
  let w' := snd (saveCheckpoint (Some "s1") state_A None steady_world) in
  let suffix := substring_js 2 15 (hd "0" (random steady_world)) in
  "ckpt_1700000000000_4fzyo82mvyr"
  = "ckpt_" +:+ decimal (hd 0 (clock steady_world)) +:+ "_" +:+ suffix
  /\ (String.length suffix <= 13)%nat
  /\ (base36_text (hd "0" (random steady_world)) = true ->
      alphanumeric suffix = true).
Proof.
  intros w'.
  assert (H : saveCheckpoint (Some "s1") state_A None steady_world
              = (Ok "ckpt_1700000000000_4fzyo82mvyr", w'))
    by (vm_compute; reflexivity).
  exact (saveCheckpoint_generated_id (Some "s1") state_A None steady_world
           "ckpt_1700000000000_4fzyo82mvyr" w' eq_refl H).
Defined.

Lemma saveMessage_twice_witness :
  let w1 := snd (saveMessage (Some "s1") "msg_1" "user" (Some "Explian")
                   steady_world) in
  let w2 := snd (saveMessage (Some "s1") "msg_1" "user" (Some "Explain") w1) in
  exists rows now,
    agent_messages w2 = Some rows
    /\ List.filter (same_message "s1" "msg_1") rows
       = [mkMessageRow "s1" "msg_1" "user" "Explain" now].
Proof.
  intros w1 w2.
  assert (H1 : saveMessage (Some "s1") "msg_1" "user" (Some "Explian")
                 steady_world = (Ok tt, w1)) by (vm_compute; reflexivity).
  assert (H2 : saveMessage (Some "s1") "msg_1" "user" (Some "Explain") w1
               = (Ok tt, w2)) by (vm_compute; reflexivity).
  exact (saveMessage_twice "s1" "msg_1" "user" "Explian" "user" "Explain"
           steady_world w1 w2 H1 H2).
Defined.


Lemma executeAgentFlow_fresh_subject_witness :
  no_checkpoint (ts_id physics_session) steady_world
  /\ exists r w',
       executeAgentFlow failing_generator "Explain" physics_session []
         steady_world = (Ok r, w')
       /\ as_subject (agentState r) = Some "physics".
Proof.
  assert (H : no_checkpoint (ts_id physics_session) steady_world).
  { split; [reflexivity|]. intros rows [= <-]. reflexivity. }
  split; [exact H|].
  exact (executeAgentFlow_fresh_subject failing_generator "Explain"
           physics_session [] steady_world H).
Defined.

Lemma memory_persistence_failure_witness :
  let w0 := snd (Date_now disk_full_world) in
  let w1 := snd (saveMessage (Some "s1") "msg_1700000000000" "assistant"
                   (Some "Inertia.") w0) in
  let saved :=
    state_to_json
      (set_messages
         (with_assistant_message answered_state "msg_1700000000000")
         answered_state) in
  let w' := snd (saveCheckpoint (Some "s1") saved None w1) in
  memory (Some sqliteMemoryService) answered_state disk_full_world
  = (Ok answered_state, w')
  /\ exists sid c rows ts,
       sessionId answered_state = Some sid
       /\ response answered_state = Some c
       /\ agent_messages w' = Some rows
       /\ In (mkMessageRow sid "msg_1700000000000" "assistant" c ts) rows.
Proof.
  intros w0 w1 saved w'.
  assert (Hnow : Date_now disk_full_world = (Ok 1700000000000, w0))
    by (vm_compute; reflexivity).
  assert (Hmsg : saveMessage (sessionId answered_state)
                   ("msg_" +:+ decimal 1700000000000) "assistant"
                   (response answered_state) w0 = (Ok tt, w1))
    by (vm_compute; reflexivity).
  assert (Hckpt : saveCheckpoint (sessionId answered_state)
                    (state_to_json
                       (set_messages
                          (with_assistant_message answered_state
                             ("msg_" +:+ decimal 1700000000000))
                          answered_state)) None w1
                  = (Throw (Error "SQLITE_FULL: database or disk is full"), w'))
    by (vm_compute; reflexivity).
  destruct (memory_persistence_failure answered_state disk_full_world
              1700000000000 w0 w' Hnow
              (or_intror (ex_intro _ w1 (ex_intro _ _ (conj Hmsg Hckpt)))))
    as (Hmem & Hrow).
  split; [exact Hmem | exact (Hrow w1 Hmsg)].
Defined.

End SampleFacts.

(* ===================================================================== *)
(** ** More of the store *)
(* ===================================================================== *)

Module TableFacts.
Import SQL SQLiteAgentMemory SQLiteAgentSchema StoreNotions TableNotions.
Import StoreFacts.

(** *** A driver that runs every statement *)

Lemma set_faults_same w : set_faults (faults w) w = w.
Proof. now destruct w. Qed.

Lemma driver_healthy w :
  healthy w -> driver w = (Ok tt, set_faults (tl (faults w)) w).
Proof.
  unfold healthy, driver. intros H.
  destruct (faults w) as [|[msg|] rest] eqn:E; [|discriminate|reflexivity].
  cbn. now rewrite <- E, set_faults_same.
Qed.

Lemma initialize_healthy w :
  healthy w -> initialize w = (Ok tt, initialized w).
Proof.
  unfold healthy. intros H.
  destruct w as [o m g s c cl r f]. cbn in H.
  unfold initialize, initialized, _initializeDefaultSchema, seeded.
  do 6 (try (destruct f as [|[?|] f]; [|discriminate H|cbn in H])).
  all: destruct m, g, s;
    cbv [try_catch bind ret throw create_agent_memories create_agent_messages
         create_agent_schema insert_or_ignore_schema driver seed_schema
         defaultSchema set_db_open set_agent_memories set_agent_messages
         set_agent_schema set_faults db_open agent_memories agent_messages
         agent_schema stateCache clock random faults rows_of fold_left
         schema_key default_value schema_type drop].
  all: repeat match goal with
       | |- context [existsb ?p ?l] => destruct (existsb p l) eqn:?
       end; reflexivity.
Qed.

Lemma healthy_tail w : healthy w -> healthy (set_faults (tl (faults w)) w).
Proof.
  unfold healthy. cbn. destruct (faults w) as [|[msg|] rest]; cbn; auto.
  discriminate.
Qed.

(** *** What every operation keeps

    A property of the world that the clock, the random source, the
    driver, the cache and the connection do not decide, and that the
    statements which write a table keep, is kept by every operation of
    the store, whether the operation returns or throws. *)

Section Operations.
Context (P : World -> Prop).
Hypothesis P_faults : ignores_faults P.
Hypothesis P_clock : ignores_clock P.
Hypothesis P_random : ignores_random P.
Hypothesis P_cache : ignores_cache P.
Hypothesis P_connection : forall b w, P w -> P (set_db_open b w).
Hypothesis P_new_memories : ignores_new_memories P.
Hypothesis P_new_messages : ignores_new_messages P.
Hypothesis P_create_schema : preserves P create_agent_schema.
Hypothesis P_seed :
  forall key value type, preserves P (insert_or_ignore_schema key value type).
Hypothesis P_memory :
  forall sid cid data, preserves P (insert_or_replace_memory sid cid data).
Hypothesis P_message :
  forall sid mid role content,
    preserves P (insert_or_replace_message sid mid role content).

Lemma keeps_seed_schema items : preserves P (seed_schema items).
Proof.
  induction items as [|item rest IH]; [apply preserves_ret|].
  cbn [seed_schema]. apply preserves_bind; [|intros _; exact IH].
  apply preserves_try_catch; [apply P_seed|].
  intros e. apply preserves_ret.
Qed.

Lemma keeps_initialize : preserves P initialize.
Proof.
  unfold initialize.
  apply preserves_try_catch; [|intros e; apply preserves_throw].
  apply preserves_bind; [intros w r w' Hw [= <- <-]; auto|]. intros _.
  apply preserves_bind; [now apply preserves_create_agent_memories|].
  intros _.
  apply preserves_bind; [now apply preserves_create_agent_messages|].
  intros _.
  apply preserves_bind; [exact P_create_schema|].
  intros _. apply keeps_seed_schema.
Qed.

Lemma keeps_ensure_initialized : preserves P ensure_initialized.
Proof.
  intros w r w' Hw. unfold ensure_initialized.
  destruct (db_open w); [intros [= <- <-]; exact Hw|].
  now apply keeps_initialize.
Qed.

Lemma keeps_select {A} (answer : World -> outcome A) :
  preserves P (do driver then fun w => (answer w, w)).
Proof.
  apply preserves_bind; [now apply preserves_driver|].
  intros _ w r w' Hw [= <- <-]. exact Hw.
Qed.

Lemma keeps_saveCheckpoint sessionId state checkpointId :
  preserves P (saveCheckpoint sessionId state checkpointId).
Proof.
  unfold saveCheckpoint.
  apply preserves_bind; [apply keeps_ensure_initialized|].
  intros _. apply preserves_try_catch; [|intros e; apply preserves_throw].
  apply preserves_bind.
  { destruct (nonempty checkpointId); [apply preserves_ret|].
    apply preserves_bind; [now apply preserves_Date_now|]. intros now.
    apply preserves_bind; [now apply preserves_Math_random|]. intros rnd.
    apply preserves_ret. }
  intros cid. apply preserves_bind; [apply P_memory|].
  intros _. apply preserves_bind; [now apply preserves_stateCache_set|].
  intros _. apply preserves_ret.
Qed.

Lemma keeps_select_checkpoint sid cid : preserves P (select_checkpoint sid cid).
Proof.
  apply preserves_bind; [now apply preserves_driver|].
  intros _ w r w' Hw. destruct (agent_memories w); intros [= <- <-]; exact Hw.
Qed.

Lemma keeps_select_latest_checkpoint sid :
  preserves P (select_latest_checkpoint sid).
Proof.
  apply preserves_bind; [now apply preserves_driver|].
  intros _ w r w' Hw. destruct (agent_memories w); intros [= <- <-]; exact Hw.
Qed.

Lemma keeps_loadCheckpoint sessionId checkpointId :
  preserves P (loadCheckpoint sessionId checkpointId).
Proof.
  unfold loadCheckpoint.
  apply preserves_bind; [apply keeps_ensure_initialized|].
  intros _. apply preserves_try_catch; [|intros e; apply preserves_throw].
  intros w r w' Hw.
  destruct (stateCache w !! _); [intros [= <- <-]; exact Hw|].
  revert w r w' Hw. apply preserves_bind.
  { destruct (nonempty checkpointId);
      [apply keeps_select_checkpoint | apply keeps_select_latest_checkpoint]. }
  intros [row|]; [|apply preserves_ret].
  destruct (parse (state_data row)); [|apply preserves_throw].
  apply preserves_bind; [now apply preserves_stateCache_set|].
  intros _. apply preserves_ret.
Qed.

Lemma keeps_saveMessage sessionId messageId role content :
  preserves P (saveMessage sessionId messageId role content).
Proof.
  unfold saveMessage.
  apply preserves_bind; [apply keeps_ensure_initialized|].
  intros _. apply preserves_try_catch; [|intros e; apply preserves_throw].
  apply P_message.
Qed.

Lemma keeps_getMessages sessionId limit :
  preserves P (getMessages sessionId limit).
Proof.
  unfold getMessages.
  apply preserves_bind; [apply keeps_ensure_initialized|].
  intros _. apply preserves_try_catch; [|intros e; apply preserves_throw].
  apply preserves_bind; [|intros msgs; apply preserves_ret].
  apply preserves_bind; [now apply preserves_driver|].
  intros _ w r w' Hw. destruct (agent_messages w); intros [= <- <-]; exact Hw.
Qed.

Lemma keeps_getDefaultSchema : preserves P getDefaultSchema.
Proof.
  unfold getDefaultSchema.
  apply preserves_bind; [apply keeps_ensure_initialized|].
  intros _. apply preserves_try_catch; [|intros e; apply preserves_ret].
  apply preserves_bind; [|intros items; apply preserves_ret].
  apply preserves_bind; [now apply preserves_driver|].
  intros _ w r w' Hw. destruct (agent_schema w); intros [= <- <-]; exact Hw.
Qed.

Lemma keeps_clearCache : preserves P clearCache.
Proof. intros w r w' Hw [= <- <-]. now apply P_cache. Qed.

Lemma keeps_close : preserves P close.
Proof.
  intros w r w' Hw. unfold close.
  destruct (db_open w); [|intros [= <- <-]; exact Hw].
  revert w r w' Hw. apply preserves_bind; [now apply preserves_driver|].
  intros _ w r w' Hw [= <- <-]. now apply P_cache, P_connection.
Qed.
End Operations.

(** *** The keys of the tables *)

Lemma NoDup_replaced {A K} (key : A -> K) (same : A -> bool)
    (rows : list A) (row : A) :
  (forall r, same r = false -> key r <> key row) ->
  List.NoDup (map key rows) ->
  List.NoDup (map key (List.filter (fun r => negb (same r)) rows ++ [row])).
Proof.
  intros Hsame. induction rows as [|r rows IH]; intros Hnd.
  - cbn. constructor; [intros []|constructor].
  - cbn in Hnd. apply List.NoDup_cons_iff in Hnd as (Hr & Hnd).
    cbn [List.filter]. destruct (same r) eqn:E; cbn [negb]; [now apply IH|].
    cbn. constructor; [|now apply IH].
    rewrite map_app, in_app_iff. intros [Hin|[Hin|[]]].
    + apply Hr. apply in_map_iff in Hin as (x & Hx & Hin).
      apply filter_In in Hin as (Hin & _).
      apply in_map_iff. eauto.
    + apply (Hsame r E). now symmetry.
Qed.

Lemma unique_keys_create_schema : preserves unique_keys create_agent_schema.
Proof.
  apply preserves_bind.
  { apply preserves_driver. intros f w H. exact H. }
  intros _ w r w' H.
  destruct (agent_schema w) eqn:E; intros [= <- <-]; [exact H|].
  destruct H as (Hm & Hg & Hs).
  split; [exact Hm|]. split; [exact Hg|].
  cbn. intros rows [= <-]. constructor.
Qed.

Lemma NoDup_snoc {K} (l : list K) (x : K) :
  List.NoDup l -> ~ In x l -> List.NoDup (l ++ [x]).
Proof.
  induction l as [|y l IH]; cbn; intros Hnd Hx.
  - constructor; [intros []|constructor].
  - apply List.NoDup_cons_iff in Hnd as (Hy & Hnd).
    constructor; [|apply IH; tauto].
    rewrite in_app_iff. cbn. intros [H|[H|[]]]; [tauto|].
    apply Hx. now left.
Qed.

Lemma unique_keys_seed key value type :
  preserves unique_keys (insert_or_ignore_schema key value type).
Proof.
  apply preserves_bind.
  { apply preserves_driver. intros f w H. exact H. }
  intros _ w r w' H. pose proof H as (Hm & Hg & Hs).
  destruct (agent_schema w) as [rows|] eqn:E; [|intros [= <- <-]; exact H].
  destruct (existsb _ rows) eqn:Ex; intros [= <- <-]; [exact H|].
  split; [exact Hm|]. split; [exact Hg|].
  cbn. intros rows' [= <-]. rewrite map_app. cbn.
  apply NoDup_snoc; [now apply Hs|].
  intros Hin. apply in_map_iff in Hin as (x & Hx & Hin).
  assert (existsb (fun r => String.eqb (schema_key r) key) rows = true).
  { apply existsb_exists. exists x. split; [exact Hin|].
    now apply String.eqb_eq. }
  congruence.
Qed.

Lemma unique_keys_memory sid cid data :
  preserves unique_keys (insert_or_replace_memory sid cid data).
Proof.
  apply preserves_bind.
  { apply preserves_driver. intros f w H. exact H. }
  intros _ w r w' H. pose proof H as (Hm & Hg & Hs).
  destruct (agent_memories w) as [rows|] eqn:E; [|intros [= <- <-]; exact H].
  destruct sid as [sid|]; [|intros [= <- <-]; exact H].
  destruct (CURRENT_TIMESTAMP w) as [res w1] eqn:Ets.
  apply CURRENT_TIMESTAMP_inv in Ets as (now & c & -> & ->).
  intros [= <- <-].
  split; [|split; [exact Hg | exact Hs]].
  cbn. intros rows' [= <-].
  apply NoDup_replaced with (same := same_checkpoint sid cid);
    [|now apply Hm].
  intros x Hx Heq. unfold checkpoint_key in Heq. cbn in Heq.
  injection Heq as H1 H2. unfold same_checkpoint in Hx.
  rewrite H1, H2, !String.eqb_refl in Hx. discriminate.
Qed.

Lemma unique_keys_message sid mid role content :
  preserves unique_keys (insert_or_replace_message sid mid role content).
Proof.
  apply preserves_bind.
  { apply preserves_driver. intros f w H. exact H. }
  intros _ w r w' H. pose proof H as (Hm & Hg & Hs).
  destruct (agent_messages w) as [rows|] eqn:E; [|intros [= <- <-]; exact H].
  destruct sid as [sid|]; [|intros [= <- <-]; exact H].
  destruct content as [content|]; [|intros [= <- <-]; exact H].
  destruct (CURRENT_TIMESTAMP w) as [res w1] eqn:Ets.
  apply CURRENT_TIMESTAMP_inv in Ets as (now & c & -> & ->).
  intros [= <- <-].
  split; [exact Hm|]. split; [|exact Hs].
  cbn. intros rows' [= <-].
  apply NoDup_replaced with (same := same_message sid mid);
    [|now apply Hg].
  intros x Hx Heq. unfold message_key in Heq. cbn in Heq.
  injection Heq as H1 H2. unfold same_message in Hx.
  rewrite H1, H2, !String.eqb_refl in Hx. discriminate.
Qed.

(** The [UNIQUE] constraints of the three tables hold after every
    operation of the store, whether it returns or throws, if they held
    before it. *)
Theorem store_keeps_unique_keys :
  preserves unique_keys initialize
  /\ (forall sessionId state checkpointId,
        preserves unique_keys (saveCheckpoint sessionId state checkpointId))
  /\ (forall sessionId checkpointId,
        preserves unique_keys (loadCheckpoint sessionId checkpointId))
  /\ (forall sessionId messageId role content,
        preserves unique_keys (saveMessage sessionId messageId role content))
  /\ (forall sessionId limit,
        preserves unique_keys (getMessages sessionId limit))
  /\ preserves unique_keys getDefaultSchema
  /\ preserves unique_keys clearCache
  /\ preserves unique_keys close.
Proof.
  assert (Hf : ignores_faults unique_keys) by (intros f w H; exact H).
  assert (Hc : ignores_clock unique_keys) by (intros f w H; exact H).
  assert (Hr : ignores_random unique_keys) by (intros f w H; exact H).
  assert (Hk : ignores_cache unique_keys) by (intros f w H; exact H).
  assert (Ho : forall b w, unique_keys w -> unique_keys (set_db_open b w))
    by (intros b w H; exact H).
  assert (Hm : ignores_new_memories unique_keys).
  { intros w _ (H1 & H2 & H3). repeat split; try assumption.
    cbn. intros rows [= <-]. constructor. }
  assert (Hg : ignores_new_messages unique_keys).
  { intros w _ (H1 & H2 & H3). repeat split; try assumption.
    cbn. intros rows [= <-]. constructor. }
  pose proof unique_keys_create_schema as H1.
  pose proof unique_keys_seed as H2.
  pose proof unique_keys_memory as H3.
  pose proof unique_keys_message as H4.
  split; [now apply keeps_initialize|].
  split; [intros; now apply keeps_saveCheckpoint|].
  split; [intros; now apply keeps_loadCheckpoint|].
  split; [intros; now apply keeps_saveMessage|].
  split; [intros; now apply keeps_getMessages|].
  split; [now apply keeps_getDefaultSchema|].
  split; [now apply keeps_clearCache | now apply keeps_close].
Qed.

(** *** [initialize] *)

Lemma runs_all_drop (n : nat) (faults : list (option string)) :
  runs_all faults = true -> runs_all (drop n faults) = true.
Proof.
  revert faults. induction n as [|n IH]; intros [|[msg|] rest]; cbn; auto.
  discriminate.
Qed.

Lemma healthy_initialized w : healthy w -> healthy (initialized w).
Proof. unfold healthy. cbn. apply runs_all_drop. Qed.

Lemma seeded_has (k : string) (rows : list SchemaRow) (item : SchemaRow) :
  existsb (fun r => String.eqb (schema_key r) k) (seeded rows item)
  = existsb (fun r => String.eqb (schema_key r) k) rows
    || String.eqb (schema_key item) k.
Proof.
  unfold seeded.
  destruct (existsb _ rows) eqn:E at 1.
  - destruct (String.eqb (schema_key item) k) eqn:Ek;
      [|now rewrite orb_false_r].
    apply String.eqb_eq in Ek. subst k. now rewrite E.
  - rewrite existsb_app. cbn. now rewrite orb_false_r.
Qed.

Lemma fold_seeded_has (k : string) (items rows : list SchemaRow) :
  existsb (fun r => String.eqb (schema_key r) k) (fold_left seeded items rows)
  = existsb (fun r => String.eqb (schema_key r) k) rows
    || existsb (fun r => String.eqb (schema_key r) k) items.
Proof.
  revert rows. induction items as [|item items IH]; intros rows; cbn.
  - now rewrite orb_false_r.
  - now rewrite IH, seeded_has, orb_assoc.
Qed.

(** Seeding keys that are all there changes nothing. *)
Lemma fold_seeded_fixed (items rows : list SchemaRow) :
  (forall item, In item items ->
     existsb (fun r => String.eqb (schema_key r) (schema_key item)) rows
     = true) ->
  fold_left seeded items rows = rows.
Proof.
  induction items as [|item items IH]; intros H; [reflexivity|].
  cbn. unfold seeded at 2. rewrite (H item) by now left.
  apply IH. intros i Hi. apply H. now right.
Qed.

(** Seeding never removes or rewrites a row. *)
Lemma fold_seeded_extends (items rows : list SchemaRow) :
  exists more, fold_left seeded items rows = (rows ++ more)%list.
Proof.
  revert rows. induction items as [|item items IH]; intros rows; cbn.
  - exists []. now rewrite app_nil_r.
  - destruct (IH (seeded rows item)) as (more & ->). unfold seeded.
    destruct (existsb _ rows); [eauto|].
    rewrite <- app_assoc. eauto.
Qed.

(** [initialize] deletes and rewrites nothing, whether it returns or
    throws: the cache is as it was, the rows of [agent_memories] and
    [agent_messages] are as they were, and the rows of [agent_schema]
    are as they were, with rows added after them at most. *)
Theorem initialize_keeps_rows (w : World) (r : outcome unit) (w' : World) :
  initialize w = (r, w') ->
  stateCache w' = stateCache w
  /\ (forall rows, agent_memories w = Some rows ->
                   agent_memories w' = Some rows)
  /\ (forall rows, agent_messages w = Some rows ->
                   agent_messages w' = Some rows)
  /\ (forall rows, agent_schema w = Some rows ->
                   exists more, agent_schema w' = Some (rows ++ more)%list).
Proof.
  intros H. split; [|split; [|split]].
  - revert H. apply preserves_initialize
      with (P := fun x => stateCache x = stateCache w);
      (frame || reflexivity).
  - intros rows E. revert H. apply preserves_initialize
      with (P := fun x => agent_memories x = Some rows); try frame;
      [|exact E].
    intros x Hx Hs. cbn in *. congruence.
  - intros rows E. revert H. apply preserves_initialize
      with (P := fun x => agent_messages x = Some rows); try frame;
      [|exact E].
    intros x Hx Hs. cbn in *. congruence.
  - intros rows E. revert H.
    apply keeps_initialize
      with (P := fun x => exists more,
                   agent_schema x = Some (rows ++ more)%list);
      try frame; try (intros b x Hx; exact Hx).
    + apply preserves_bind.
      { apply preserves_driver. intros f x Hx. exact Hx. }
      intros _ x rx x' (more & Hx). rewrite Hx. intros [= <- <-]. eauto.
    + intros key value type. apply preserves_bind.
      { apply preserves_driver. intros f x Hx. exact Hx. }
      intros _ x rx x' (more & Hx). rewrite Hx.
      destruct (existsb _ _); intros [= <- <-]; [eauto|].
      cbn. rewrite <- app_assoc. eauto.
    + exists []. now rewrite app_nil_r.
Qed.

(** When the driver runs every statement, [initialize] returns and
    leaves the store open with its three tables, each default key in
    [agent_schema]; and a second [initialize] returns too and changes
    nothing but what is left of the driver's tape. *)
Theorem initialize_idempotent (w : World) :
  healthy w ->
  exists w1 w2,
    initialize w = (Ok tt, w1)
    /\ db_open w1 = true
    /\ agent_memories w1 <> None /\ agent_messages w1 <> None
    /\ (exists rows,
          agent_schema w1 = Some rows
          /\ forall item, In item defaultSchema ->
               In (schema_key item) (map schema_key rows))
    /\ initialize w1 = (Ok tt, w2)
    /\ w2 = set_faults (faults w2) w1.
Proof.
  intros H. exists (initialized w), (initialized (initialized w)).
  split; [now apply initialize_healthy|].
  split; [reflexivity|]. split; [discriminate|]. split; [discriminate|].
  split.
  { eexists. split; [reflexivity|]. intros item Hitem.
    pose proof (fold_seeded_has (schema_key item) defaultSchema
                  (rows_of (agent_schema w))) as E.
    assert (Hhas : existsb
              (fun r => String.eqb (schema_key r) (schema_key item))
              defaultSchema = true).
    { apply existsb_exists. exists item. split; [exact Hitem|].
      apply String.eqb_refl. }
    rewrite Hhas, orb_true_r in E.
    apply existsb_exists in E as (row & Hrow & Hk).
    apply String.eqb_eq in Hk. rewrite <- Hk. now apply in_map. }
  split; [now apply initialize_healthy, healthy_initialized|].
  unfold initialized, set_faults.
  cbn [db_open agent_memories agent_messages agent_schema stateCache clock
       random faults rows_of].
  f_equal. f_equal. apply fold_seeded_fixed. intros item Hitem.
  rewrite fold_seeded_has. apply orb_true_iff. right.
  apply existsb_exists. exists item. split; [exact Hitem|].
  apply String.eqb_refl.
Qed.

(** *** [getDefaultSchema] *)

(** Once the store is open, [getDefaultSchema] returns: when the table
    cannot be read, because the driver rejects the query or the table is
    not there, it returns the built-in schema.  It throws only what the
    [initialize] it starts with throws. *)
Theorem getDefaultSchema_falls_back (w : World) :
  (db_open w = true ->
   exists schema w',
     getDefaultSchema w = (Ok schema, w')
     /\ (hd None (faults w) <> None \/ agent_schema w = None ->
         schema = fallbackSchema))
  /\ (forall e w',
        getDefaultSchema w = (Throw e, w') ->
        db_open w = false /\ initialize w = (Throw e, w')).
Proof.
  split.
  - intros Hopen. unfold getDefaultSchema, bind at 1.
    rewrite (ensure_initialized_open _ Hopen).
    unfold try_catch, select_schema, bind, driver, ret.
    destruct (faults w) as [|[msg|] rest] eqn:Ef; cbn [hd].
    + destruct (agent_schema w) as [rows|] eqn:Es;
        eexists _, _; (split; [reflexivity|]); [|reflexivity].
      intros [H|H]; [now elim H | discriminate].
    + eexists _, _. split; reflexivity.
    + cbn [agent_schema set_faults].
      destruct (agent_schema w) as [rows|] eqn:Es;
        eexists _, _; (split; [reflexivity|]); [|reflexivity].
      intros [H|H]; [now elim H | discriminate].
  - intros e w'. unfold getDefaultSchema, bind at 1, ensure_initialized.
    destruct (db_open w) eqn:Eo.
    + unfold try_catch, select_schema, bind, driver, ret.
      destruct (faults w) as [|[msg|] rest]; cbn [agent_schema set_faults];
        try destruct (agent_schema w); discriminate.
    + destruct (initialize w) as [[[]|e0] w1] eqn:Ei.
      * unfold try_catch, select_schema, bind, driver, ret.
        destruct (faults w1) as [|[msg|] rest];
          cbn [agent_schema set_faults];
          try destruct (agent_schema w1); discriminate.
      * intros [= <- <-]. auto.
Qed.

(** On a database without schema rows, when the driver runs every
    statement, the schema [getDefaultSchema] reads back is the built-in
    one: the rows [initialize] seeds and the schema returned on failure
    agree. *)
Theorem getDefaultSchema_fresh (w : World) :
  healthy w -> db_open w = false -> rows_of (agent_schema w) = [] ->
  exists w', getDefaultSchema w = (Ok fallbackSchema, w').
Proof.
  intros H Hclosed Hrows. unfold getDefaultSchema, bind at 1.
  unfold ensure_initialized. rewrite Hclosed, (initialize_healthy _ H).
  unfold try_catch, select_schema, bind.
  rewrite (driver_healthy _ (healthy_initialized _ H)).
  cbn [agent_schema set_faults initialized]. rewrite Hrows.
  eexists. reflexivity.
Qed.

(** *** Checkpoints on disk *)

Lemma nonempty_given (o : option string) (s : string) :
  nonempty o = Some s -> nonempty (Some s) = Some s.
Proof. destruct o as [[|c r]|]; cbn; intros [= <-]; reflexivity. Qed.

Lemma saved_id_nonempty sessionId state checkpointId w cid w' :
  saveCheckpoint sessionId state checkpointId w = (Ok cid, w') ->
  nonempty (Some cid) = Some cid.
Proof.
  intros H. apply saveCheckpoint_ok_inv in H as (wa & _ & Hcid & _).
  destruct (nonempty checkpointId) as [given|] eqn:E.
  - subst cid. exact (nonempty_given _ _ E).
  - subst cid. apply generated_id_nonempty.
Qed.

(** A checkpoint outlives the connection.  When [saveCheckpoint] has
    returned an id, then after [close], which drops the cache, a
    [loadCheckpoint] with that id opens the database again and returns
    the state that was saved, as long as the driver runs every
    statement. *)
Theorem checkpoint_survives_close
    (sessionId : option string) (s : json) (checkpointId : option string)
    (w : World) (cid : string) (w1 : World) :
  saveCheckpoint sessionId s checkpointId w = (Ok cid, w1) ->
  healthy w1 ->
  exists w2,
    (do close then loadCheckpoint sessionId (Some cid)) w1 = (Ok s, w2).
Proof.
  intros Hsave Hh.
  pose proof (saved_id_nonempty _ _ _ _ _ _ Hsave) as Hne.
  apply saveCheckpoint_ok_inv in Hsave
    as (wa & _ & _ & Hopen & _ & sid & rows & now & -> & Hrows).
  unfold bind at 1. unfold close. rewrite Hopen.
  unfold bind at 1. rewrite (driver_healthy _ Hh).
  set (wc := set_stateCache ∅ (set_db_open false
               (set_faults (tl (faults w1)) w1))).
  assert (Hc : healthy wc) by exact (healthy_tail _ Hh).
  unfold loadCheckpoint, bind at 1. unfold ensure_initialized.
  change (db_open wc) with false. cbv iota.
  rewrite (initialize_healthy _ Hc), try_catch_rethrow, Hne.
  change (stateCache (initialized wc)) with (∅ : gmap string json).
  rewrite lookup_empty.
  unfold select_checkpoint, bind at 1. unfold bind at 1.
  rewrite (driver_healthy _ (healthy_initialized _ Hc)).
  cbn [agent_memories set_faults initialized wc set_stateCache set_db_open].
  rewrite Hrows. cbn [rows_of].
  change (fun r => of_session (Some sid) (mem_session_id r)
                   && String.eqb (mem_checkpoint_id r) cid)
    with (same_checkpoint sid cid).
  rewrite filter_replaced
    by (unfold same_checkpoint; cbn; now rewrite !String.eqb_refl).
  cbn [head state_data]. rewrite JSONFacts.parse_stringify.
  unfold stateCache_set, bind, ret. eexists. reflexivity.
Qed.

(** *** What a save writes *)

Lemma set_clock_same w : set_clock (clock w) w = w.
Proof. now destruct w. Qed.

Lemma CURRENT_TIMESTAMP_reads w :
  CURRENT_TIMESTAMP w
  = (Ok (hd 0 (clock w) / 1000), set_clock (tl (clock w)) w).
Proof.
  unfold CURRENT_TIMESTAMP, bind, Date_now, ret.
  destruct (clock w) as [|t rest] eqn:E; [|reflexivity].
  cbn. now rewrite <- E, set_clock_same.
Qed.

(** [ensure_initialized] leaves the cache, the clock and the random
    source alone, and keeps the rows of the two tables of a session; a
    table that was missing may be there, empty. *)
Lemma ensure_initialized_rows w r wa :
  ensure_initialized w = (r, wa) ->
  stateCache wa = stateCache w /\ clock wa = clock w
  /\ random wa = random w
  /\ (agent_memories wa = agent_memories w
      \/ agent_memories w = None /\ agent_memories wa = Some [])
  /\ (agent_messages wa = agent_messages w
      \/ agent_messages w = None /\ agent_messages wa = Some []).
Proof.
  intros H. repeat split.
  - revert H. apply preserves_ensure_initialized
      with (P := fun x => stateCache x = stateCache w);
      (frame || reflexivity).
  - revert H. apply preserves_ensure_initialized
      with (P := fun x => clock x = clock w); (frame || reflexivity).
  - revert H. apply preserves_ensure_initialized
      with (P := fun x => random x = random w); (frame || reflexivity).
  - revert H. apply preserves_ensure_initialized
      with (P := fun x => agent_memories x = agent_memories w
                          \/ agent_memories w = None
                             /\ agent_memories x = Some []);
      try frame; [|now left].
    intros x Hx [Hs|[Hs _]]; right; cbn; split; congruence.
  - revert H. apply preserves_ensure_initialized
      with (P := fun x => agent_messages x = agent_messages w
                          \/ agent_messages w = None
                             /\ agent_messages x = Some []);
      try frame; [|now left].
    intros x Hx [Hs|[Hs _]]; right; cbn; split; congruence.
Qed.

Lemma rows_of_created {A} (before after : option (list A)) :
  after = before \/ before = None /\ after = Some [] ->
  rows_of after = rows_of before.
Proof. intros [->|[-> ->]]; reflexivity. Qed.

Lemma rows_of_table {A} (before after : option (list A)) (rows : list A) :
  after = before \/ before = None /\ after = Some [] ->
  after = Some rows -> rows = rows_of before.
Proof. intros [->|[-> ->]]; intros E; [now rewrite E | now injection E]. Qed.

(** A [saveMessage] that returns has replaced the row of its session and
    message id by a row that holds the message and the second it was
    written in, after all other rows, which are as they were and in the
    order they were in.  It writes no checkpoint and nothing to the
    cache. *)
Theorem saveMessage_effect
    (sessionId : option string) (messageId role : string)
    (content : option string) (w w' : World) :
  saveMessage sessionId messageId role content w = (Ok tt, w') ->
  exists sid c,
    sessionId = Some sid /\ content = Some c
    /\ agent_messages w' =
       Some (List.filter (fun r => negb (same_message sid messageId r))
                         (rows_of (agent_messages w))
             ++ [mkMessageRow sid messageId role c (hd 0 (clock w) / 1000)])%list
    /\ rows_of (agent_memories w') = rows_of (agent_memories w)
    /\ stateCache w' = stateCache w.
Proof.
  unfold saveMessage. intros H.
  apply bind_ok_inv in H as ([] & wa & Hinit & H).
  apply ensure_initialized_rows in Hinit as (Hcache & Hclock & _ & Hmem & Hmsg).
  rewrite try_catch_rethrow in H.
  apply bind_ok_inv in H as ([] & wb & Hdrv & H).
  apply driver_ok_inv in Hdrv as (f & ->).
  cbn [agent_messages set_faults] in H.
  destruct (agent_messages wa) as [rows|] eqn:Erows; [|discriminate].
  destruct sessionId as [sid|]; [|discriminate].
  destruct content as [c|]; [|discriminate].
  rewrite CURRENT_TIMESTAMP_reads in H. injection H as <-.
  exists sid, c. split; [reflexivity|]. split; [reflexivity|].
  cbn. rewrite Hclock, Hcache.
  rewrite (rows_of_table _ _ rows Hmsg eq_refl).
  split; [reflexivity|]. split; [|reflexivity].
  now apply rows_of_created.
Qed.

Lemma checkpoint_id_keeps checkpointId w r w' :
  (match nonempty checkpointId with
   | Some given => ret given
   | None =>
       let* now := Date_now in
       let* rnd := Math_random_toString36 in
       ret ("ckpt_" +:+ decimal now +:+ "_" +:+ substring_js 2 15 rnd)
   end) w = (r, w') ->
  exists c rnd, w' = set_random rnd (set_clock c w).
Proof.
  destruct (nonempty checkpointId) as [given|].
  - intros [= <- <-]. exists (clock w), (random w). now destruct w.
  - unfold bind, Date_now, Math_random_toString36, ret.
    destruct (clock w) as [|t c] eqn:Ec; cbn;
      destruct (random w) as [|x rnd] eqn:Er; cbn; intros [= <- <-].
    + exists [], []. destruct w; cbn in *; subst; reflexivity.
    + exists [], rnd. destruct w; cbn in *; subst; reflexivity.
    + exists c, []. destruct w; cbn in *; subst; reflexivity.
    + eauto.
Qed.

(** A [saveCheckpoint] that returns has replaced the row of its session
    and checkpoint id by a row that holds the text of the state, after
    all other rows, which are as they were; it has put the state in the
    cache under the key of the session and the id, and changed no other
    entry of the cache and no message. *)
Theorem saveCheckpoint_effect
    (sessionId : option string) (state : json) (checkpointId : option string)
    (w : World) (cid : string) (w' : World) :
  saveCheckpoint sessionId state checkpointId w = (Ok cid, w') ->
  exists sid now,
    sessionId = Some sid
    /\ agent_memories w' =
       Some (List.filter (fun r => negb (same_checkpoint sid cid r))
                         (rows_of (agent_memories w))
             ++ [mkMemoryRow sid cid (stringify state) now])%list
    /\ rows_of (agent_messages w') = rows_of (agent_messages w)
    /\ stateCache w' = <[sid +:+ ":" +:+ cid := state]> (stateCache w).
Proof.
  unfold saveCheckpoint. intros H.
  apply bind_ok_inv in H as ([] & wa & Hinit & H).
  apply ensure_initialized_rows in Hinit as (Hcache & _ & _ & Hmem & Hmsg).
  rewrite try_catch_rethrow in H.
  apply bind_ok_inv in H as (cid0 & wb & Hid & H).
  apply checkpoint_id_keeps in Hid as (c & rnd & ->).
  apply bind_ok_inv in H as ([] & wc & Hins & H).
  apply bind_ok_inv in H as ([] & wd & [= <-] & [= <- <-]).
  apply bind_ok_inv in Hins as ([] & we & Hdrv & Hins).
  apply driver_ok_inv in Hdrv as (f & ->).
  cbn [agent_memories set_faults set_random set_clock] in Hins.
  destruct (agent_memories wa) as [rows|] eqn:Erows; [|discriminate].
  destruct sessionId as [sid|]; [|discriminate].
  rewrite CURRENT_TIMESTAMP_reads in Hins. injection Hins as <-.
  exists sid. eexists. split; [reflexivity|]. cbn.
  rewrite Hcache, (rows_of_table _ _ rows Hmem eq_refl).
  split; [reflexivity|]. split; [|reflexivity].
  now apply rows_of_created.
Qed.

(** *** Messages read back *)

Lemma place_length {A} (before : A -> A -> bool) (x : A) (l : list A) :
  length (place before x l) = S (length l).
Proof.
  induction l as [|y l IH]; cbn; [reflexivity|].
  destruct (before x y); cbn; [reflexivity | now rewrite IH].
Qed.

Lemma order_by_length {A} (before : A -> A -> bool) (l : list A) :
  length (order_by before l) = length l.
Proof.
  induction l as [|x l IH]; [reflexivity|].
  change (order_by before (x :: l)) with (place before x (order_by before l)).
  now rewrite place_length, IH.
Qed.

Lemma first_rows_all {A} (n : Z) (l : list A) :
  n < 0 \/ Z.of_nat (length l) <= n -> first_rows n l = l.
Proof.
  unfold first_rows. intros [H|H].
  - apply Z.ltb_lt in H. now rewrite H.
  - destruct (n <? 0); [reflexivity|]. apply take_ge. lia.
Qed.

(** What [getMessages] returns, in terms of the rows it finds. *)
Lemma getMessages_ok_inv sessionId limit w msgs w' :
  getMessages sessionId limit w = (Ok msgs, w') ->
  exists rows,
    agent_messages w' = Some rows
    /\ rows = rows_of (agent_messages w)
    /\ msgs = map stored
         (first_rows (match limit with Some n => n | None => 100 end)
            (order_by (fun a b => msg_timestamp a <=? msg_timestamp b)
               (List.filter (fun r => of_session sessionId (msg_session_id r))
                            rows))).
Proof.
  unfold getMessages. intros H.
  apply bind_ok_inv in H as ([] & wa & Hinit & H).
  apply ensure_initialized_rows in Hinit as (_ & _ & _ & _ & Hmsg).
  rewrite try_catch_rethrow in H.
  apply bind_ok_inv in H as (messages & wb & Hsel & [= <- <-]).
  apply bind_ok_inv in Hsel as ([] & wc & Hdrv & Hsel).
  apply driver_ok_inv in Hdrv as (f & ->).
  cbn [agent_messages set_faults] in Hsel.
  destruct (agent_messages wa) as [rows|] eqn:Erows; [|discriminate].
  injection Hsel as Hlimit <-.
  apply limit_rows_ok_inv in Hlimit as (-> & _). exists rows. cbn.
  split; [exact Erows|]. split; [|reflexivity].
  exact (rows_of_table _ _ rows Hmsg eq_refl).
Qed.

(** A message saved is a message read.  After [saveMessage] has
    returned, a [getMessages] of the session whose limit does not cut
    the session's rows short returns the message, with the second it was
    written in, and no other message with its id. *)
Theorem saveMessage_getMessages
    (sid messageId role c : string) (limit : option Z)
    (w w1 : World) (msgs : list StoredMessage) (w2 : World) :
  saveMessage (Some sid) messageId role (Some c) w = (Ok tt, w1) ->
  getMessages (Some sid) limit w1 = (Ok msgs, w2) ->
  (let n := match limit with Some n => n | None => 100 end in
   n < 0
   \/ Z.of_nat
        (length (List.filter (fun r => String.eqb (msg_session_id r) sid)
                             (rows_of (agent_messages w1)))) <= n) ->
  let saved := mkStoredMessage messageId role c (hd 0 (clock w) / 1000) in
  In saved msgs
  /\ forall m, In m msgs -> id m = messageId -> m = saved.
Proof.
  intros Hsave Hget Hlimit saved.
  apply saveMessage_effect in Hsave
    as (sid' & c' & [= <-] & [= <-] & Hrows & _ & _).
  apply getMessages_ok_inv in Hget as (rows & _ & -> & ->).
  rewrite first_rows_all
    by (cbn [of_session]; rewrite order_by_length; exact Hlimit).
  rewrite Hrows. cbn [rows_of of_session]. split.
  - apply in_map_iff.
    exists (mkMessageRow sid messageId role c (hd 0 (clock w) / 1000)).
    split; [reflexivity|]. apply order_by_In, filter_In. split.
    + apply in_app_iff. right. now left.
    + cbn. apply String.eqb_refl.
  - intros m Hm Hid. apply in_map_iff in Hm as (r & <- & Hr).
    apply order_by_In, filter_In in Hr as (Hr & Hs).
    apply in_app_iff in Hr as [Hr|[<-|[]]]; [|reflexivity].
    apply filter_In in Hr as (_ & Hr). cbn in Hid.
    unfold same_message in Hr. rewrite Hs in Hr. subst messageId.
    rewrite String.eqb_refl in Hr. discriminate.
Qed.

(** *** Sessions do not see each other *)

Lemma same_answer_bind {A B} (m : M A) (k : A -> M B) (w w' : World) :
  fst (m w') = fst (m w) ->
  (forall a x x', fst (k a x') = fst (k a x)) ->
  fst (bind m k w') = fst (bind m k w).
Proof.
  unfold bind. intros Hm Hk.
  destruct (m w) as [[a|e] x], (m w') as [[a'|e'] x']; cbn in *;
    try discriminate; [|now injection Hm as ->].
  injection Hm as ->. apply Hk.
Qed.

Lemma filter_other {A} (p same : A -> bool) (rows : list A) (row : A) :
  (forall r, p r = true -> same r = false) -> p row = false ->
  List.filter p (List.filter (fun r => negb (same r)) rows ++ [row])
  = List.filter p rows.
Proof.
  intros Hp Hrow. rewrite List.filter_app. cbn. rewrite Hrow, app_nil_r.
  induction rows as [|r rows IH]; [reflexivity|].
  cbn. destruct (p r) eqn:Er.
  - rewrite (Hp r Er). cbn. now rewrite Er, IH.
  - destruct (same r); cbn; [exact IH | now rewrite Er, IH].
Qed.

Lemma saveMessage_opens sessionId messageId role content w w' :
  saveMessage sessionId messageId role content w = (Ok tt, w') ->
  db_open w' = true.
Proof.
  unfold saveMessage. intros H.
  apply bind_ok_inv in H as ([] & wa & Hinit & H).
  apply ensure_initialized_opens in Hinit. revert H.
  apply preserves_try_catch with (P := fun x => db_open x = true);
    [|intros e; apply preserves_throw|exact Hinit].
  apply preserves_insert_or_replace_message; frame.
Qed.

(** A message saved for one session changes nothing for another: what
    [getMessages] answers for the other session, with the driver in the
    same state, is what it answered before. *)
Theorem saveMessage_other_session
    (a messageId role : string) (content : option string) (b : string)
    (w w' : World) :
  saveMessage (Some a) messageId role content w = (Ok tt, w') ->
  a <> b -> db_open w = true ->
  forall limit f,
    fst (getMessages (Some b) limit (set_faults f w'))
    = fst (getMessages (Some b) limit (set_faults f w)).
Proof.
  intros Hsave Hab Hopen limit f.
  pose proof (saveMessage_opens _ _ _ _ _ _ Hsave) as Hopen'.
  assert (Htable : exists rows, agent_messages w = Some rows).
  { unfold saveMessage in Hsave.
    apply bind_ok_inv in Hsave as ([] & wa & Hinit & H).
    rewrite (ensure_initialized_open _ Hopen) in Hinit.
    injection Hinit as <-. rewrite try_catch_rethrow in H.
    apply bind_ok_inv in H as ([] & wb & Hdrv & H).
    apply driver_ok_inv in Hdrv as (f' & ->).
    cbn [agent_messages set_faults] in H.
    destruct (agent_messages w) as [rows|]; [eauto | discriminate]. }
  destruct Htable as (rows & Hrows).
  apply saveMessage_effect in Hsave
    as (sid & c & [= <-] & -> & Hrows' & _ & _).
  rewrite Hrows in Hrows'. cbn [rows_of] in Hrows'.
  unfold getMessages.
  rewrite (bind_ok ensure_initialized _ (set_faults f w') tt _
             (ensure_initialized_open (set_faults f w') Hopen')).
  rewrite (bind_ok ensure_initialized _ (set_faults f w) tt _
             (ensure_initialized_open (set_faults f w) Hopen)).
  rewrite !try_catch_rethrow.
  apply same_answer_bind; [|reflexivity].
  unfold select_messages, bind, driver. cbn [faults set_faults].
  destruct f as [|[msg|] rest]; cbn [agent_messages set_faults fst];
    try reflexivity; rewrite Hrows, Hrows'; cbn [fst];
    (rewrite filter_other; [reflexivity| |]);
    cbn; try (intros r Hr; unfold same_message; apply String.eqb_eq in Hr;
              rewrite Hr);
    try (apply andb_false_iff; left);
    apply String.eqb_neq; congruence.
Qed.

(** The key of the cache tells sessions apart when their ids hold no
    colon. *)
Lemma cache_key_injective (a b x y : string) :
  colon_free a = true -> colon_free b = true ->
  a +:+ ":" +:+ x = b +:+ ":" +:+ y -> a = b.
Proof.
  revert b. induction a as [|c a IH]; intros [|d b]; cbn; intros Ha Hb.
  - reflexivity.
  - apply andb_true_iff in Hb as (Hd & _).
    rewrite !JSONFacts.append_cons, JSONFacts.append_empty.
    intros [= <- _]. discriminate.
  - apply andb_true_iff in Ha as (Hc & _).
    rewrite !JSONFacts.append_cons, JSONFacts.append_empty.
    intros [= -> _]. discriminate.
  - apply andb_true_iff in Ha as (_ & Ha).
    apply andb_true_iff in Hb as (_ & Hb).
    rewrite !JSONFacts.append_cons. intros [= -> H].
    f_equal. now apply IH.
Qed.

Lemma saveCheckpoint_opens sessionId state checkpointId w cid w' :
  saveCheckpoint sessionId state checkpointId w = (Ok cid, w') ->
  db_open w' = true.
Proof.
  intros H. now apply saveCheckpoint_ok_inv in H as (_ & _ & _ & H & _).
Qed.

(** A checkpoint saved for one session changes nothing for another,
    when the ids of the two sessions hold no colon: what
    [loadCheckpoint] answers for the other session, with or without a
    checkpoint id and with the driver in the same state, is what it
    answered before. *)
Theorem saveCheckpoint_other_session
    (a : string) (state : json) (checkpointId : option string) (b : string)
    (w : World) (cid : string) (w' : World) :
  saveCheckpoint (Some a) state checkpointId w = (Ok cid, w') ->
  a <> b -> colon_free a = true -> colon_free b = true ->
  db_open w = true ->
  forall wanted f,
    fst (loadCheckpoint (Some b) wanted (set_faults f w'))
    = fst (loadCheckpoint (Some b) wanted (set_faults f w)).
Proof.
  intros Hsave Hab Ha Hb Hopen wanted f.
  pose proof (saveCheckpoint_opens _ _ _ _ _ _ Hsave) as Hopen'.
  assert (Htable : exists rows, agent_memories w = Some rows).
  { unfold saveCheckpoint in Hsave.
    apply bind_ok_inv in Hsave as ([] & wa & Hinit & H).
    rewrite (ensure_initialized_open _ Hopen) in Hinit.
    injection Hinit as <-. rewrite try_catch_rethrow in H.
    apply bind_ok_inv in H as (cid0 & wb & Hid & H).
    apply checkpoint_id_keeps in Hid as (c & rnd & ->).
    apply bind_ok_inv in H as ([] & wc & Hins & _).
    apply bind_ok_inv in Hins as ([] & wd & Hdrv & Hins).
    apply driver_ok_inv in Hdrv as (f' & ->).
    cbn [agent_memories set_faults set_random set_clock] in Hins.
    destruct (agent_memories w) as [rows|]; [eauto | discriminate]. }
  destruct Htable as (rows & Hrows).
  apply saveCheckpoint_effect in Hsave
    as (sid & now & [= <-] & Hrows' & _ & Hcache).
  rewrite Hrows in Hrows'. cbn [rows_of] in Hrows'.
  unfold loadCheckpoint.
  rewrite (bind_ok ensure_initialized _ (set_faults f w') tt _
             (ensure_initialized_open (set_faults f w') Hopen')).
  rewrite (bind_ok ensure_initialized _ (set_faults f w) tt _
             (ensure_initialized_open (set_faults f w) Hopen)).
  rewrite !try_catch_rethrow.
  cbn [stateCache set_faults js_string]. rewrite Hcache.
  rewrite lookup_insert_ne
    by (intros E; apply Hab; exact (cache_key_injective _ _ _ _ Ha Hb E)).
  destruct (stateCache w !! _) as [cached|]; [reflexivity|].
  apply same_answer_bind.
  - destruct (nonempty wanted) as [c|];
      unfold select_checkpoint, select_latest_checkpoint, bind, driver;
      cbn [faults set_faults];
      destruct f as [|[msg|] rest]; cbn [agent_memories set_faults fst];
      try reflexivity; rewrite Hrows, Hrows'; cbn [fst];
      (rewrite filter_other; [reflexivity| |]);
      cbn;
      try (intros r Hr; unfold same_checkpoint;
           try apply andb_true_iff in Hr as (Hr & _);
           apply String.eqb_eq in Hr; rewrite Hr);
      try (apply andb_false_iff; left);
      apply String.eqb_neq; congruence.
  - intros [row|] x x'; [|reflexivity].
    destruct (parse (state_data row)); reflexivity.
Qed.

(** *** The cache answers first *)

(** A state that [loadCheckpoint] has returned is returned again by the
    same call whatever the driver does then: it is answered from the
    cache, and the world is left as it is. *)
Theorem loadCheckpoint_again
    (sessionId checkpointId : option string) (w : World) (s : json)
    (w' : World) :
  loadCheckpoint sessionId checkpointId w = (Ok s, w') ->
  s <> JNull ->
  forall f,
    loadCheckpoint sessionId checkpointId (set_faults f w')
    = (Ok s, set_faults f w').
Proof.
  unfold loadCheckpoint. intros Hload Hs f.
  apply bind_ok_inv in Hload as ([] & wa & Hinit & Hload).
  apply ensure_initialized_opens in Hinit.
  rewrite try_catch_rethrow in Hload.
  set (key := js_string sessionId +:+ ":" +:+
              match nonempty checkpointId with
              | Some c => c
              | None => "latest"
              end) in *.
  assert (Hdone : db_open w' = true /\ stateCache w' !! key = Some s).
  { destruct (stateCache wa !! key) as [cached|] eqn:Ecache.
    - injection Hload as <- <-. auto.
    - apply bind_ok_inv in Hload as (result & wb & Hsel & Hload).
      assert (Hopen : db_open wb = true).
      { revert Hsel. destruct (nonempty checkpointId).
        - apply keeps_select_checkpoint
            with (P := fun x => db_open x = true); (frame || exact Hinit).
        - apply keeps_select_latest_checkpoint
            with (P := fun x => db_open x = true); (frame || exact Hinit). }
      destruct result as [row|]; [|injection Hload as <- _; now elim Hs].
      destruct (parse (state_data row)) as [state|]; [|discriminate].
      injection Hload as <- <-. split; [exact Hopen|].
      cbn. apply lookup_insert_eq. }
  destruct Hdone as (Hopen & Hcache).
  unfold bind. rewrite ensure_initialized_open by exact Hopen.
  rewrite try_catch_rethrow. cbn [stateCache set_faults].
  now rewrite Hcache.
Qed.

End TableFacts.

(** *** The statements about the tables, on sample stores *)

Module TableSampleFacts.
Import SQL SQLiteAgentMemory SQLiteAgentSchema StoreNotions TableNotions.
Import Samples TableSamples StoreFacts TableFacts.

Lemma initialize_keeps_rows_witness :
  let w' := snd (initialize locked_world) in
  (exists e, fst (initialize locked_world) = Throw e)
  /\ stateCache w' = stateCache locked_world
  /\ (forall rows, agent_memories locked_world = Some rows ->
                   agent_memories w' = Some rows)
  /\ (forall rows, agent_messages locked_world = Some rows ->
                   agent_messages w' = Some rows)
  /\ (forall rows, agent_schema locked_world = Some rows ->
                   exists more, agent_schema w' = Some (rows ++ more)%list).
Proof.
  intros w'. split; [eexists; vm_compute; reflexivity|].
  apply (initialize_keeps_rows locked_world
           (fst (initialize locked_world)) w').
  vm_compute. reflexivity.
Defined.

Lemma initialize_idempotent_witness :
  healthy (fresh_database [None; None])
  /\ exists w1 w2,
       initialize (fresh_database [None; None]) = (Ok tt, w1)
       /\ db_open w1 = true
       /\ agent_memories w1 <> None /\ agent_messages w1 <> None
       /\ (exists rows,
             agent_schema w1 = Some rows
             /\ forall item, In item defaultSchema ->
                  In (schema_key item) (map schema_key rows))
       /\ initialize w1 = (Ok tt, w2)
       /\ w2 = set_faults (faults w2) w1.
Proof.
  assert (H : healthy (fresh_database [None; None])) by reflexivity.
  split; [exact H|].
  exact (initialize_idempotent (fresh_database [None; None]) H).
Defined.

Lemma getDefaultSchema_falls_back_witness :
  let unreadable := set_faults [Some "SQLITE_IOERR: disk I/O error"]
                               steady_world in
  let unopened := fresh_database [Some "SQLITE_NOTADB: file is not a database"] in
  (exists schema w',
     getDefaultSchema unreadable = (Ok schema, w')
     /\ schema = fallbackSchema)
  /\ db_open unopened = false
  /\ initialize unopened
     = (Throw (Error "SQLITE_NOTADB: file is not a database"),
        snd (getDefaultSchema unopened)).
Proof.
  intros unreadable unopened. split.
  - destruct (proj1 (getDefaultSchema_falls_back unreadable) eq_refl)
      as (schema & w' & E & H).
    exists schema, w'. split; [exact E|]. apply H. left. discriminate.
  - apply (proj2 (getDefaultSchema_falls_back unopened)).
    vm_compute. reflexivity.
Defined.

Lemma getDefaultSchema_fresh_witness :
  exists w', getDefaultSchema (fresh_database []) = (Ok fallbackSchema, w').
Proof.
  apply (getDefaultSchema_fresh (fresh_database [])); reflexivity.
Defined.

Lemma checkpoint_survives_close_witness :
  let w1 := snd (saveCheckpoint (Some "s1") state_B None steady_world) in
  exists w2,
    (do close then
     loadCheckpoint (Some "s1") (Some "ckpt_1700000000000_4fzyo82mvyr")) w1
    = (Ok state_B, w2).
Proof.
  intros w1.
  apply (checkpoint_survives_close (Some "s1") state_B None steady_world
           "ckpt_1700000000000_4fzyo82mvyr" w1).
  - vm_compute. reflexivity.
  - reflexivity.
Defined.

Lemma saveMessage_effect_witness :
  let w' := snd (saveMessage (Some "s1") "msg_a" "user" (Some "Explain it")
                   two_messages_world) in
  exists sid c,
    Some "s1" = Some sid /\ Some "Explain it" = Some c
    /\ agent_messages w' =
       Some (List.filter (fun r => negb (same_message sid "msg_a" r))
                         (rows_of (agent_messages two_messages_world))
             ++ [mkMessageRow sid "msg_a" "user" c
                   (hd 0 (clock two_messages_world) / 1000)])%list
    /\ rows_of (agent_memories w') = rows_of (agent_memories two_messages_world)
    /\ stateCache w' = stateCache two_messages_world.
Proof.
  intros w'.
  apply (saveMessage_effect (Some "s1") "msg_a" "user" (Some "Explain it")
           two_messages_world w').
  vm_compute. reflexivity.
Defined.

Lemma saveCheckpoint_effect_witness :
  let w' := snd (saveCheckpoint (Some "s1") state_B (Some "c1")
                   two_checkpoints_world) in
  exists sid now,
    Some "s1" = Some sid
    /\ agent_memories w' =
       Some (List.filter (fun r => negb (same_checkpoint sid "c1" r))
                         (rows_of (agent_memories two_checkpoints_world))
             ++ [mkMemoryRow sid "c1" (stringify state_B) now])%list
    /\ rows_of (agent_messages w')
       = rows_of (agent_messages two_checkpoints_world)
    /\ stateCache w'
       = <[sid +:+ ":" +:+ "c1" := state_B]>
           (stateCache two_checkpoints_world).
Proof.
  intros w'.
  apply (saveCheckpoint_effect (Some "s1") state_B (Some "c1")
           two_checkpoints_world "c1" w').
  vm_compute. reflexivity.
Defined.

Lemma saveMessage_getMessages_witness :
  let w1 := snd (saveMessage (Some "s1") "msg_a" "user" (Some "Explain it")
                   two_messages_world) in
  let msgs := answer [] (getMessages (Some "s1") None w1) in
  let saved := mkStoredMessage "msg_a" "user" "Explain it"
                 (hd 0 (clock two_messages_world) / 1000) in
  In saved msgs
  /\ forall m, In m msgs -> id m = "msg_a" -> m = saved.
Proof.
  intros w1 msgs.
  apply (saveMessage_getMessages "s1" "msg_a" "user" "Explain it" None
           two_messages_world w1 msgs
           (snd (getMessages (Some "s1") None w1))).
  - vm_compute. reflexivity.
  - vm_compute. reflexivity.
  - right. vm_compute. discriminate.
Defined.

Lemma saveMessage_other_session_witness :
  let w' := snd (saveMessage (Some "s1") "msg_d" "user" (Some "More")
                   two_messages_world) in
  fst (getMessages (Some "s2") (Some 10) (set_faults [None] w'))
  = fst (getMessages (Some "s2") (Some 10)
           (set_faults [None] two_messages_world)).
Proof.
  intros w'.
  apply (saveMessage_other_session "s1" "msg_d" "user" (Some "More") "s2"
           two_messages_world w').
  - vm_compute. reflexivity.
  - discriminate.
  - reflexivity.
Defined.

Lemma saveCheckpoint_other_session_witness :
  let w' := snd (saveCheckpoint (Some "s2") state_B None
                   two_checkpoints_world) in
  fst (loadCheckpoint (Some "s1") (Some "c1") (set_faults [None] w'))
  = fst (loadCheckpoint (Some "s1") (Some "c1")
           (set_faults [None] two_checkpoints_world)).
Proof.
  intros w'.
  apply (saveCheckpoint_other_session "s2" state_B None "s1"
           two_checkpoints_world "ckpt_0_" w').
  - vm_compute. reflexivity.
  - discriminate.
  - reflexivity.
  - reflexivity.
  - reflexivity.
Defined.

Lemma loadCheckpoint_again_witness :
  let w' := snd (loadCheckpoint (Some "s1") None two_checkpoints_world) in
  let down := [Some "SQLITE_IOERR: disk I/O error"] in
  loadCheckpoint (Some "s1") None (set_faults down w')
  = (Ok state_B, set_faults down w').
Proof.
  intros w' down.
  apply (loadCheckpoint_again (Some "s1") None two_checkpoints_world
           state_B w').
  - vm_compute. reflexivity.
  - discriminate.
Defined.

Lemma loadCheckpoint_cold_cache_witness :
  exists rows,
    agent_memories two_checkpoints_world = Some rows
    /\ ((state_B = JNull
         /\ List.filter (fun r => String.eqb (mem_session_id r) "s1") rows
            = [])
        \/ exists row,
             In row rows /\ mem_session_id row = "s1"
             /\ parse (state_data row) = Some state_B
             /\ forall r, In r rows -> mem_session_id r = "s1" ->
                          created_at r <= created_at row).
Proof.
  apply (loadCheckpoint_cold_cache "s1" two_checkpoints_world state_B
           (snd (loadCheckpoint (Some "s1") None two_checkpoints_world))).
  - reflexivity.
  - reflexivity.
  - vm_compute. reflexivity.
Defined.

End TableSampleFacts.
